(** * Verification of the chat webview bridge of the VS Code client
    (clients/vscode/src/chat/webview.ts).

    The development embeds the parts of [ChatWebview] that the
    specification describes: the version-keyed client handle and the
    deferred action queue, [lookupSymbol], [listSymbols], the session state
    store and [getChanges].  Host collaborators (document store, definition
    provider, symbol providers, git provider) are parameters of the
    embedded functions. *)

From Stdlib Require Import List String Ascii Bool Arith ZArith Lia Sorted Permutation.
Import ListNotations.
Open Scope string_scope.
Open Scope list_scope.

(* ================================================================== *)
(** ** Strings: helpers used throughout *)
(* ================================================================== *)

Module Str.

Definition is_digit (c : ascii) : bool :=
  let n := nat_of_ascii c in Nat.leb 48 n && Nat.leb n 57.

Definition is_upper (c : ascii) : bool :=
  let n := nat_of_ascii c in Nat.leb 65 n && Nat.leb n 90.

Definition is_lower (c : ascii) : bool :=
  let n := nat_of_ascii c in Nat.leb 97 n && Nat.leb n 122.

(** [\w] of a JavaScript regular expression: [A-Za-z0-9_]. *)
Definition is_word (c : ascii) : bool :=
  is_digit c || is_upper c || is_lower c || Ascii.eqb c "_"%char.

(** [String.prototype.toLowerCase] on ASCII text. *)
Definition lower_char (c : ascii) : ascii :=
  if is_upper c then ascii_of_nat (nat_of_ascii c + 32) else c.

Fixpoint toLowerCase (s : string) : string :=
  match s with
  | EmptyString => EmptyString
  | String c r => String (lower_char c) (toLowerCase r)
  end.

(** [String.prototype.includes]. *)
Fixpoint includes (s q : string) : bool :=
  String.prefix q s ||
  match s with
  | EmptyString => false
  | String _ r => includes r q
  end.

(** Decimal rendering of a natural number, as a template literal does. *)
Fixpoint digits_aux (fuel n : nat) (acc : string) : string :=
  match fuel with
  | 0 => acc
  | S f =>
      let acc' := String (ascii_of_nat (48 + n mod 10)) acc in
      if Nat.ltb n 10 then acc' else digits_aux f (n / 10) acc'
  end.

Definition show_nat (n : nat) : string := digits_aux (S n) n "".

End Str.

(* ================================================================== *)
(** ** Version-keyed client handle and deferred actions *)
(* ================================================================== *)

Module Capability.

(** [semver.valid] and [isCompatible] (utils.ts, outside src):
    Modelled from the spec: a version is a release version
    MAJOR.MINOR.PATCH of decimal numbers without leading zeros, and
    [isCompatible(a, b)] holds when [a >= b] by semantic-version
    comparison. *)
Fixpoint split_dot (s : string) : list string :=
  match s with
  | EmptyString => [EmptyString]
  | String c r =>
      match split_dot r with
      | [] => []
      | x :: xs => if Ascii.eqb c "."%char then EmptyString :: x :: xs
                   else String c x :: xs
      end
  end.

Fixpoint digits_value (s : string) (acc : nat) : option nat :=
  match s with
  | EmptyString => Some acc
  | String c r =>
      if Str.is_digit c then digits_value r (acc * 10 + (nat_of_ascii c - 48))
      else None
  end.

Definition parse_num (s : string) : option nat :=
  match s with
  | EmptyString => None
  | String c r =>
      if Ascii.eqb c "0"%char && negb (String.eqb r "") then None
      else digits_value s 0
  end.

Definition parse_semver (s : string) : option (nat * nat * nat) :=
  match split_dot s with
  | [a; b; c] =>
      match parse_num a, parse_num b, parse_num c with
      | Some x, Some y, Some z => Some (x, y, z)
      | _, _, _ => None
      end
  | _ => None
  end.

Definition semver_valid (s : string) : bool :=
  match parse_semver s with Some _ => true | None => false end.

Definition version_ge (a b : nat * nat * nat) : bool :=
  let '(a1, a2, a3) := a in
  let '(b1, b2, b3) := b in
  Nat.ltb b1 a1 || (Nat.eqb a1 b1 && (Nat.ltb b2 a2 || (Nat.eqb a2 b2 && Nat.leb b3 a3))).

Definition isCompatible (a b : string) : bool :=
  match parse_semver a, parse_semver b with
  | Some x, Some y => version_ge x y
  | _, _ => false
  end.

(** A [ServerApiList] as a JavaScript object: each version key carries the
    names of the operations it exposes. *)
Definition ServerApiList := list (string * list string).

Definition get_key (h : ServerApiList) (k : string) : option (list string) :=
  match find (fun p => String.eqb (fst p) k) h with
  | Some (_, ops) => Some ops
  | None => None
  end.

Inductive EditorContext :=
  | FileContext (filepath : string) (content : string)
  | TerminalContext (name : string) (selection : string).

Definition is_terminal (c : EditorContext) : bool :=
  match c with TerminalContext _ _ => true | FileContext _ _ => false end.

Inductive Arg :=
  | ArgContext (c : EditorContext)
  | ArgCommand (cmd : string)
  | ArgInit (token : string) (mac : bool).

(** Outcome of one call on the handle. *)
Inductive Outcome :=
  | Invoked (version op : string) (a : Arg)
  | Skipped
  | TypeError.

(** [h[v].op(a)]: the key is read without a guard. *)
Definition call_required (h : ServerApiList) (v op : string) (a : Arg) : Outcome :=
  match get_key h v with
  | None => TypeError
  | Some ops => if existsb (String.eqb op) ops then Invoked v op a else TypeError
  end.

(** [h[v]?.op(a)]: an absent key short-circuits the call. *)
Definition call_optional (h : ServerApiList) (v op : string) (a : Arg) : Outcome :=
  match get_key h v with
  | None => Skipped
  | Some ops => if existsb (String.eqb op) ops then Invoked v op a else TypeError
  end.

(** The host-to-panel operations that are deferred when no handle exists. *)
Inductive HostOp :=
  | SetActiveSelection (selection : EditorContext)
  | AddRelevantContext (context : EditorContext)
  | ExecuteCommand (command : string).

(** The call each operation makes on a handle (the same body on the direct
    path and inside the pending closure). *)
Definition dispatch (h : ServerApiList) (o : HostOp) : Outcome :=
  match o with
  | SetActiveSelection s => call_required h "0.8.0" "updateActiveSelection" (ArgContext s)
  | AddRelevantContext c =>
      if is_terminal c then call_optional h "0.10.0" "addRelevantContext" (ArgContext c)
      else call_required h "0.8.0" "addRelevantContext" (ArgContext c)
  | ExecuteCommand cmd =>
      if String.eqb cmd "explain-terminal"
      then call_optional h "0.10.0" "executeCommand" (ArgCommand cmd)
      else call_required h "0.8.0" "executeCommand" (ArgCommand cmd)
  end.

(** A pending closure resolves [this.client?.] when it runs. *)
Definition run_pending (client : option ServerApiList) (o : HostOp) : Outcome :=
  match client with
  | None => Skipped
  | Some h => dispatch h o
  end.

(** Log of calls made on the handle, tagged as the logger tags them. *)
Inductive LogEntry :=
  | Direct (o : HostOp) (r : Outcome)
  | Flushed (o : HostOp) (r : Outcome)
  | InitCall (r : Outcome).

Record State := mkState {
  client : option ServerApiList;
  pendingActions : list HostOp;
  panelLog : list LogEntry;
  currentToken : string;
  isMac : bool
}.

(** [setActiveSelection], [addRelevantContext], [executeCommand]. *)
Definition host_op (st : State) (o : HostOp) : State :=
  match client st with
  | Some h => mkState (client st) (pendingActions st)
                (panelLog st ++ [Direct o (dispatch h o)]) (currentToken st) (isMac st)
  | None => mkState None (pendingActions st ++ [o])
                (panelLog st) (currentToken st) (isMac st)
  end.

(** [this.pendingActions.forEach(async (fn) => { await fn(); })]: each
    closure runs up to its call on the handle before the next one starts. *)
Fixpoint flush (st : State) (fns : list HostOp) : State :=
  match fns with
  | [] => st
  | o :: rest =>
      flush (mkState (client st) (pendingActions st)
               (panelLog st ++ [Flushed o (run_pending (client st) o)])
               (currentToken st) (isMac st)) rest
  end.

(** [initChatPanel], from the moment the handle is resolved. *)
Definition initChatPanel (h : ServerApiList) (st : State) : State :=
  let st1 := mkState (Some h) (pendingActions st) (panelLog st) (currentToken st) (isMac st) in
  let st2 := flush st1 (pendingActions st1) in
  let st3 := mkState (client st2) [] (panelLog st2) (currentToken st2) (isMac st2) in
  mkState (client st3) (pendingActions st3)
    (panelLog st3 ++ [InitCall (call_required h "0.8.0" "init" (ArgInit (currentToken st3) (isMac st3)))])
    (currentToken st3) (isMac st3).

(** [getApiVersions]: the keys of [this.client ?? {}] that are valid. *)
Definition getApiVersions (c : option ServerApiList) : list string :=
  filter semver_valid (map fst (match c with Some h => h | None => [] end)).

(** The version check of the code, for a minimum version [v]. *)
Definition supportsVersion (c : option ServerApiList) (v : string) : bool :=
  existsb (fun w => isCompatible w v) (getApiVersions c).

(** [isTerminalContextEnabled]. *)
Definition isTerminalContextEnabled (c : option ServerApiList) : bool :=
  supportsVersion c "0.10.0".

End Capability.

(* ================================================================== *)
(** ** Shared chat-panel types *)
(* ================================================================== *)

Module Panel.

(** [Filepath] of tabby-chat-panel (declared outside src): a tagged object
    naming a file in a git repository, in a workspace folder, or by URI. *)
Inductive Filepath :=
  | FilepathInGitRepository (filepath gitUrl : string) (revision : option string)
  | FilepathInWorkspace (filepath baseDir : string)
  | FilepathUri (uri : string).

(** A VS Code position: line and character. *)
Definition Position : Type := nat * nat.

Definition pos_le (a b : Position) : bool :=
  Nat.ltb (fst a) (fst b) || (Nat.eqb (fst a) (fst b) && Nat.leb (snd a) (snd b)).

Definition pos_eqb (a b : Position) : bool :=
  Nat.eqb (fst a) (fst b) && Nat.eqb (snd a) (snd b).

(** [new Range(p1, p2)]: the constructor orders its two ends. *)
Record Range := mkRangeRaw { start : Position; end_ : Position }.

Definition newRange (p1 p2 : Position) : Range :=
  if pos_le p1 p2 then mkRangeRaw p1 p2 else mkRangeRaw p2 p1.

Definition isEmpty (r : Range) : bool := pos_eqb (start r) (end_ r).

End Panel.

(* ================================================================== *)
(** ** lookupSymbol *)
(* ================================================================== *)

Module Lookup.
Import Panel.

(** Errors thrown by a collaborator. *)
Inductive Result (A : Type) :=
  | Ok (a : A)
  | Err (e : string).
Arguments Ok {A} a.
Arguments Err {A} e.

(** A text document: its URI and its text. *)
Record TextDocument := mkDoc { uri : string; text : string }.

Fixpoint newline_offsets (s : string) (i : nat) : list nat :=
  match s with
  | EmptyString => []
  | String c r =>
      if Ascii.eqb c (ascii_of_nat 10) then S i :: newline_offsets r (S i)
      else newline_offsets r (S i)
  end.

(** Offsets at which the lines of a text start. *)
Definition line_starts (s : string) : list nat := 0 :: newline_offsets s 0.

Definition lineCount (d : TextDocument) : nat := List.length (line_starts (text d)).

Definition line_end (d : TextDocument) (l : nat) : nat :=
  match nth_error (line_starts (text d)) (S l) with
  | Some o => o - 1
  | None => String.length (text d)
  end.

(** [document.offsetAt]: a position past the last line is the end of the
    text, a character past the end of its line is the end of that line. *)
Definition offsetAt (d : TextDocument) (p : Position) : nat :=
  match nth_error (line_starts (text d)) (fst p) with
  | None => String.length (text d)
  | Some st => Nat.min (st + snd p) (line_end d (fst p))
  end.

(** [document.positionAt]. *)
Definition positionAt (d : TextDocument) (off : nat) : Position :=
  let o := Nat.min off (String.length (text d)) in
  let l := List.length (filter (fun x => Nat.leb x o) (newline_offsets (text d) 0)) in
  (l, o - nth l (line_starts (text d)) 0).

(** [document.getText(range)] and [document.getText()]. *)
Definition getTextRange (d : TextDocument) (r : Range) : string :=
  let a := offsetAt d (start r) in
  let b := offsetAt d (end_ r) in
  String.substring a (b - a) (text d).

Definition getText (d : TextDocument) : string := text d.

(** [symbol.match(/^[a-zA-Z_][a-zA-Z0-9_]*$/)]. *)
Definition is_identifier (s : string) : bool :=
  match s with
  | EmptyString => false
  | String c r =>
      (Str.is_upper c || Str.is_lower c || Ascii.eqb c "_"%char) &&
      forallb Str.is_word (list_ascii_of_string r)
  end.

Definition char_at (s : string) (i : nat) : option ascii := String.get i s.

(** A match of [\bsymbol\b] at index [i] of [content]. *)
Definition match_at (content sym : string) (i : nat) : bool :=
  String.eqb (String.substring i (String.length sym) content) sym &&
  Nat.leb (i + String.length sym) (String.length content) &&
  match i with
  | 0 => true
  | S j => match char_at content j with Some c => negb (Str.is_word c) | None => true end
  end &&
  match char_at content (i + String.length sym) with
  | Some c => negb (Str.is_word c)
  | None => true
  end.

(** Successive [matchRegExp.exec(content)] results of the global regular
    expression, from [lastIndex = i]. *)
Fixpoint exec_all (fuel : nat) (content sym : string) (i : nat) : list nat :=
  match fuel with
  | 0 => []
  | S f =>
      if Nat.ltb (String.length content) i then []
      else if match_at content sym i
           then i :: exec_all f content sym (i + String.length sym)
           else exec_all f content sym (S i)
  end.

Definition occurrences (content sym : string) : list nat :=
  exec_all (S (String.length content)) content sym 0.

(** A definition result: a [LocationLink] or a [Location]. *)
Inductive DefLocation :=
  | LocationLink (targetUri : string) (targetRange : Range)
                 (targetSelectionRange : option Range)
  | PlainLocation (locUri : string) (range : Range).

Record FileLocation := mkFileLocation { fl_filepath : Filepath; fl_position : Position }.
Record FileRange := mkFileRange { fr_filepath : Filepath; fr_range : Range }.
Record SymbolInfo := mkSymbolInfo { source : FileLocation; target : FileRange }.

Record LookupSymbolHint := mkHint {
  hint_filepath : option Filepath;
  hint_location : option (Position * Position)
}.

Section LookupSymbol.

(** Collaborators: [chatPanelFilepathToLocalUri], [workspace.openTextDocument]
    (which may throw), the definition provider behind
    [vscode.executeDefinitionProvider] (VS Code resolves it to a list and
    reports provider failures itself), and [localUriToChatPanelFilepath]. *)
Variable chatPanelFilepathToLocalUri : Filepath -> option string.
Variable openTextDocument : string -> Result TextDocument.
Variable executeDefinitionProvider : string -> Position -> list DefLocation.
Variable localUriToChatPanelFilepath : string -> Filepath.

(** The [findSymbolInContent] closure: the first occurrence whose
    definition query returns a result. *)
Fixpoint first_definition (d : TextDocument) (offsetInDocument : nat)
    (occs : list nat) : option SymbolInfo :=
  match occs with
  | [] => None
  | i :: rest =>
      let position := positionAt d (offsetInDocument + i) in
      match executeDefinitionProvider (uri d) position with
      | LocationLink tu tr tsr :: _ =>
          Some (mkSymbolInfo
                  (mkFileLocation (localUriToChatPanelFilepath (uri d)) position)
                  (mkFileRange (localUriToChatPanelFilepath tu)
                     (match tsr with Some r => r | None => tr end)))
      | PlainLocation lu r :: _ =>
          Some (mkSymbolInfo
                  (mkFileLocation (localUriToChatPanelFilepath (uri d)) position)
                  (mkFileRange (localUriToChatPanelFilepath lu) r))
      | [] => first_definition d offsetInDocument rest
      end
  end.

Definition findSymbolInContent (symbol : string) (d : TextDocument)
    (content : string) (offsetInDocument : nat) : option SymbolInfo :=
  first_definition d offsetInDocument (occurrences content symbol).

(** The search window of a hint location: the range itself, or, when it is
    empty, its line to the end of the document. *)
Definition hint_window (d : TextDocument) (loc : Position * Position) : Range :=
  let location := newRange (fst loc) (snd loc) in
  if negb (isEmpty location) then location
  else newRange (fst (start location), 0) (lineCount d, 0).

(** The search in one opened document. *)
Definition search_document (symbol : string) (d : TextDocument)
    (loc : option (Position * Position)) : option SymbolInfo :=
  let inHint :=
    match loc with
    | Some l =>
        let range := hint_window d l in
        findSymbolInContent symbol d (getTextRange d range) (offsetAt d (start range))
    | None => None
    end in
  match inHint with
  | Some si => Some si
  | None => findSymbolInContent symbol d (getText d) 0
  end.

(** The loop over the hints. *)
Fixpoint lookup_hints (symbol : string) (hints : list LookupSymbolHint)
    : Result (option SymbolInfo) :=
  match hints with
  | [] => Ok None
  | hint :: rest =>
      match hint_filepath hint with
      | None => lookup_hints symbol rest
      | Some fp =>
          match chatPanelFilepathToLocalUri fp with
          | None => lookup_hints symbol rest
          | Some u =>
              match openTextDocument u with
              | Err _ => lookup_hints symbol rest
              | Ok d =>
                  match search_document symbol d (hint_location hint) with
                  | Some si => Ok (Some si)
                  | None => lookup_hints symbol rest
                  end
              end
          end
      end
  end.

(** [lookupSymbol(symbol, hints)]. *)
Definition lookupSymbol (symbol : string) (hints : option (list LookupSymbolHint))
    : Result (option SymbolInfo) :=
  if negb (is_identifier symbol) then Ok None
  else lookup_hints symbol (match hints with Some hs => hs | None => [] end).

End LookupSymbol.

End Lookup.

(* ================================================================== *)
(** ** listSymbols *)
(* ================================================================== *)

Module Symbols.
Local Set Warnings "-register-all".
Import Panel.

(** A [vscode.SymbolInformation]: name, container name, location. *)
Record SymbolInformation := mkSymbolInformation {
  si_name : string;
  si_containerName : string;
  si_uri : string;
  si_range : Range
}.

(** What [vscode.executeDocumentSymbolProvider] returns: a
    [DocumentSymbol] tree node or a flat [SymbolInformation]. *)
Inductive ProviderSymbol :=
  | DocumentSymbol (name detail : string) (range : Range) (children : list ProviderSymbol)
  | FlatSymbol (info : SymbolInformation).

Definition children (s : ProviderSymbol) : list ProviderSymbol :=
  match s with
  | DocumentSymbol _ _ _ ch => ch
  | FlatSymbol _ => []
  end.

Fixpoint sym_size (s : ProviderSymbol) : nat :=
  match s with
  | DocumentSymbol _ _ _ ch =>
      S ((fix go (l : list ProviderSymbol) : nat :=
            match l with [] => 0 | x :: r => sym_size x + go r end) ch)
  | FlatSymbol _ => 1
  end.

Definition forest_size (l : list ProviderSymbol) : nat := list_sum (map sym_size l).

(** [new SymbolInformation(name, kind, detail, new Location(uri, range))]
    for a tree node; a flat symbol is kept as it is. *)
Definition convert (docUri : string) (s : ProviderSymbol) : SymbolInformation :=
  match s with
  | DocumentSymbol n det r _ => mkSymbolInformation n det docUri r
  | FlatSymbol i => i
  end.

(** The [while] loop of [getDocumentSymbols]; [fuel] bounds the number of
    iterations, each of which takes one symbol off the queue. *)
Fixpoint bfs_loop (fuel limit : nat) (docUri : string) (queue : list ProviderSymbol)
    (result : list SymbolInformation) : list SymbolInformation :=
  match fuel with
  | 0 => result
  | S f =>
      match queue with
      | [] => result
      | current :: rest =>
          if Nat.ltb (List.length result) limit then
            let result' := result ++ [convert docUri current] in
            if Nat.leb limit (List.length result') then result'
            else bfs_loop f limit docUri (rest ++ children current) result'
          else result
      end
  end.

(** [getDocumentSymbols(editor)]. *)
Definition getDocumentSymbols (limit : nat) (docUri : string)
    (symbols : list ProviderSymbol) : list SymbolInformation :=
  bfs_loop (forest_size symbols) limit docUri symbols [].

(** A panel line range, with [start] and [end] lines. *)
Record LineRange := mkLineRange { lr_start : nat; lr_end : nat }.

(** [vscodeRangeToChatPanelLineRange] (utils.ts, outside src).
    Modelled from the spec: the line range of a range, in the panel's
    1-based lines. *)
Definition toLineRange (r : Range) : LineRange :=
  mkLineRange (S (fst (start r))) (S (fst (end_ r))).

Record ListSymbolItem := mkItem {
  item_filepath : Filepath;
  item_range : LineRange;
  item_label : string
}.

Definition symbolToItem (s : SymbolInformation) (fp : Filepath) : ListSymbolItem :=
  mkItem fp (toLineRange (si_range s)) (si_name s).

(** [filterSymbols]. *)
Definition filterSymbols (symbols : list SymbolInformation) (query : string)
    : list SymbolInformation :=
  let lowerQuery := Str.toLowerCase query in
  filter (fun s => Str.includes (Str.toLowerCase (si_name s)) lowerQuery ||
                   Str.includes (Str.toLowerCase (si_containerName s)) lowerQuery) symbols.

(** A [Filepath] is an object: a template literal renders it with
    [Object.prototype.toString]. *)
Definition filepath_template (f : Filepath) : string := "[object Object]".

(** [`${item.filepath}-${item.label}-${item.range.start}-${item.range.end}`] *)
Definition item_key (it : ListSymbolItem) : string :=
  filepath_template (item_filepath it) ++ "-" ++ item_label it ++ "-" ++
  Str.show_nat (lr_start (item_range it)) ++ "-" ++ Str.show_nat (lr_end (item_range it)).

(** The loop filling [uniqueItems] through the [seen] set. *)
Fixpoint dedup (seen : list string) (items : list ListSymbolItem) : list ListSymbolItem :=
  match items with
  | [] => []
  | it :: rest =>
      if existsb (String.eqb (item_key it)) seen then dedup seen rest
      else it :: dedup (item_key it :: seen) rest
  end.

(** [getMatchScore]. *)
Definition getMatchScore (query label : string) : nat :=
  let lowerLabel := Str.toLowerCase label in
  let lowerQuery := Str.toLowerCase query in
  if String.eqb lowerLabel lowerQuery then 3
  else if String.prefix lowerQuery lowerLabel then 2
  else if Str.includes lowerLabel lowerQuery then 1
  else 0.

(** The comparator passed to [uniqueItems.sort], as "a goes strictly
    before b". *)
Definition sort_before (query : string) (a b : ListSymbolItem) : bool :=
  let scoreA := getMatchScore query (item_label a) in
  let scoreB := getMatchScore query (item_label b) in
  if negb (Nat.eqb scoreB scoreA) then Nat.ltb scoreB scoreA
  else Nat.ltb (String.length (item_label a)) (String.length (item_label b)).

(** [Array.prototype.sort] is stable: an insertion sort that places each
    item after every item it does not go strictly before. *)
Fixpoint insert_sorted (before : ListSymbolItem -> ListSymbolItem -> bool)
    (x : ListSymbolItem) (l : list ListSymbolItem) : list ListSymbolItem :=
  match l with
  | [] => [x]
  | y :: ys => if before x y then x :: y :: ys else y :: insert_sorted before x ys
  end.

Definition stable_sort (before : ListSymbolItem -> ListSymbolItem -> bool)
    (l : list ListSymbolItem) : list ListSymbolItem :=
  fold_left (fun acc x => insert_sorted before x acc) l [].

(** [mergeResults(local, workspace, query, limit)]. *)
Definition mergeResults (local workspace : list ListSymbolItem) (query : string)
    (limit : nat) : list ListSymbolItem :=
  let uniqueItems := dedup [] (local ++ workspace) in
  firstn limit (stable_sort (sort_before query) uniqueItems).

(** [if (!limit || limit < 0) { limit = 20; }] *)
Definition effectiveLimit (limit : option Z) : Z :=
  match limit with
  | None => 20
  | Some z => if Z.eqb z 0 || Z.ltb z 0 then 20 else z
  end.

(** Outcome of a provider call. *)
Inductive Provided (A : Type) :=
  | Provides (a : A)
  | Throws.
Arguments Provides {A} a.
Arguments Throws {A}.

(** [listSymbols(params)]: the items returned, and the queries sent to the
    workspace symbol provider. *)
Definition listSymbols (query : string) (limitParam : option Z)
    (activeDocUri : option string)
    (documentSymbols : Provided (list ProviderSymbol))
    (workspaceSymbols : string -> Provided (list SymbolInformation))
    (localUriToChatPanelFilepath : string -> Filepath)
    : list ListSymbolItem * list string :=
  match activeDocUri with
  | None => ([], [])
  | Some docUri =>
      let limit := Z.to_nat (effectiveLimit limitParam) in
      match documentSymbols with
      | Throws => ([], [])
      | Provides symbols =>
          let defaultSymbols := getDocumentSymbols limit docUri symbols in
          let filepath := localUriToChatPanelFilepath docUri in
          if String.eqb query "" then
            (map (fun s => symbolToItem s filepath) (firstn limit defaultSymbols), [])
          else
            let filteredDefault := filterSymbols defaultSymbols query in
            let ws :=
              match workspaceSymbols query with
              | Throws => []
              | Provides l =>
                  map (fun s => mkItem (localUriToChatPanelFilepath (si_uri s))
                                       (toLineRange (si_range s)) (si_name s)) l
              end in
            (mergeResults (map (fun s => symbolToItem s filepath) filteredDefault)
                          ws query limit, [query])
      end
  end.

(** Breadth-first flattening, level by level: every symbol at depth 0, then
    every symbol at depth 1, and so on, each level in order. *)
Fixpoint levels (fuel : nat) (docUri : string) (level : list ProviderSymbol)
    : list SymbolInformation :=
  match fuel with
  | 0 => []
  | S f =>
      match level with
      | [] => []
      | _ => map (convert docUri) level ++ levels f docUri (flat_map children level)
      end
  end.

Definition bfs_flatten (docUri : string) (symbols : list ProviderSymbol)
    : list SymbolInformation :=
  levels (forest_size symbols) docUri symbols.

(** The queue-driven traversal of [getDocumentSymbols] without the limit. *)
Fixpoint bfs_queue (fuel : nat) (docUri : string) (queue : list ProviderSymbol)
    : list SymbolInformation :=
  match fuel with
  | 0 => []
  | S f =>
      match queue with
      | [] => []
      | current :: rest => convert docUri current :: bfs_queue f docUri (rest ++ children current)
      end
  end.

End Symbols.

(* ================================================================== *)
(** ** Session state store *)
(* ================================================================== *)

Module Session.

(** Values held in a session state object; [Inherited n] is the member [n]
    of [Object.prototype] reached through the prototype chain. *)
Inductive JsValue :=
  | JNum (z : Z)
  | JStr (s : string)
  | Inherited (name : string).

(** Members of [Object.prototype], visible to [in] on every plain object. *)
Definition object_prototype_members : list string :=
  ["constructor"; "hasOwnProperty"; "isPrototypeOf"; "propertyIsEnumerable";
   "toLocaleString"; "toString"; "valueOf"; "__defineGetter__";
   "__defineSetter__"; "__lookupGetter__"; "__lookupSetter__"; "__proto__"].

(** A plain object: its own properties in insertion order. *)
Definition JsObject := list (string * JsValue).

Definition own (o : JsObject) (k : string) : option JsValue :=
  match find (fun p => String.eqb (fst p) k) o with
  | Some (_, v) => Some v
  | None => None
  end.

(** [key in o]. *)
Definition js_in (k : string) (o : JsObject) : bool :=
  match own o k with
  | Some _ => true
  | None => existsb (String.eqb k) object_prototype_members
  end.

(** [o[key]] for a key that is [in] the object. *)
Definition js_get (o : JsObject) (k : string) : JsValue :=
  match own o k with
  | Some v => v
  | None => Inherited k
  end.

(** Defining an own property (what an object spread does): an existing key
    keeps its place. *)
Fixpoint define_prop (o : JsObject) (k : string) (v : JsValue) : JsObject :=
  match o with
  | [] => [(k, v)]
  | (k', v') :: rest =>
      if String.eqb k' k then (k, v) :: rest else (k', v') :: define_prop rest k v
  end.

(** [o[key] = v]: assigning [__proto__] changes the prototype and defines no
    own property. *)
Definition assign_prop (o : JsObject) (k : string) (v : JsValue) : JsObject :=
  if String.eqb k "__proto__" then o else define_prop o k v.

(** [{ ...a, ...b }]. *)
Definition spread (a b : JsObject) : JsObject :=
  fold_left (fun acc p => define_prop acc (fst p) (snd p)) b a.

(** [sessionStateMap], a [Map<string, Record<string, unknown>>]. *)
Definition SessionMap := list (string * JsObject).

Definition map_get (m : SessionMap) (k : string) : option JsObject :=
  match find (fun p => String.eqb (fst p) k) m with
  | Some (_, v) => Some v
  | None => None
  end.

Fixpoint map_set (m : SessionMap) (k : string) (v : JsObject) : SessionMap :=
  match m with
  | [] => [(k, v)]
  | (k', v') :: rest =>
      if String.eqb k' k then (k, v) :: rest else (k', v') :: map_set rest k v
  end.

(** [this.currentConfig?.endpoint ?? ""]. *)
Definition sessionStateKey (endpoint : option string) : string :=
  match endpoint with Some e => e | None => "" end.

(** [fetchSessionState(keys)]. *)
Definition fetchSessionState (endpoint : option string) (m : SessionMap)
    (keys : option (list string)) : JsObject :=
  let sessionState := match map_get m (sessionStateKey endpoint) with
                      | Some o => o | None => [] end in
  match keys with
  | None => spread [] sessionState
  | Some ks =>
      fold_left (fun filtered key =>
                   if js_in key sessionState
                   then assign_prop filtered key (js_get sessionState key)
                   else filtered) ks []
  end.

(** [storeSessionState(state)]. *)
Definition storeSessionState (endpoint : option string) (m : SessionMap)
    (state : JsObject) : SessionMap :=
  let key := sessionStateKey endpoint in
  let sessionState := match map_get m key with Some o => o | None => [] end in
  map_set m key (spread sessionState state).

End Session.

(* ================================================================== *)
(** ** getChanges *)
(* ================================================================== *)

Module Changes.
Local Open Scope Z_scope.

Record ChangeItem := mkChange { content : string; staged : bool }.

(** Length of a diff text. *)
Definition chars (d : string) : Z := Z.of_nat (String.length d).

(** The inner [for (const diff of diffs)] loop: returns the items collected
    so far and [currentCharCount]. *)
Fixpoint diffs_loop (charLimit : option Z) (stg : bool) (diffs : list string)
    (res : list ChangeItem) (count : Z) : list ChangeItem * Z :=
  match diffs with
  | [] => (res, count)
  | diff :: rest =>
      let diffChars := chars diff in
      match charLimit with
      | Some l =>
          if Z.ltb l (count + diffChars) then (res, count)
          else diffs_loop charLimit stg rest (res ++ [mkChange diff stg]) (count + diffChars)
      | None => diffs_loop charLimit stg rest (res ++ [mkChange diff stg]) (count + diffChars)
      end
  end.

Section GitProvider.

(** [gitProvider.getDiff(repo, staged)], which may return nothing. *)
Variable Repository : Type.
Variable getDiff : Repository -> bool -> option (list string).

(** The outer [for (const repo of repos)] loop. *)
Fixpoint repos_loop (charLimit : option Z) (stg : bool) (repos : list Repository)
    (res : list ChangeItem) (count : Z) : list ChangeItem :=
  match repos with
  | [] => res
  | repo :: rest =>
      match getDiff repo stg with
      | None => repos_loop charLimit stg rest res count
      | Some diffs =>
          let '(res', count') := diffs_loop charLimit stg diffs res count in
          match charLimit with
          | Some l => if Z.leb l count' then res' else repos_loop charLimit stg rest res' count'
          | None => repos_loop charLimit stg rest res' count'
          end
      end
  end.

(** [getRepoChanges(repos, staged, charLimit)]. *)
Definition getRepoChanges (repos : list Repository) (stg : bool) (charLimit : option Z)
    : list ChangeItem :=
  match charLimit with
  | Some l => if Z.leb l 0 then [] else repos_loop charLimit stg repos [] 0
  | None => repos_loop charLimit stg repos [] 0
  end.

Definition total_chars (items : list ChangeItem) : Z :=
  fold_left (fun count item => count + chars (content item)) items 0.

(** Characters of a list of diffs, and every diff of one phase. *)
Definition sumZ (diffs : list string) : Z := fold_right (fun d acc => chars d + acc) 0 diffs.

Definition all_diffs (repos : list Repository) (stg : bool) : list string :=
  flat_map (fun r => match getDiff r stg with Some ds => ds | None => [] end) repos.

(** [getChanges({ maxChars })]. *)
Definition getChanges (isApiAvailable : bool) (repositories : option (list Repository))
    (maxChars : option Z) : list ChangeItem :=
  if negb isApiAvailable then []
  else
    match repositories with
    | None => []
    | Some repos =>
        let stagedChanges := getRepoChanges repos true maxChars in
        let stagedCharCount := total_chars stagedChanges in
        let remainingChars := match maxChars with
                              | Some m => Some (m - stagedCharCount)
                              | None => None
                              end in
        let unstagedChanges := getRepoChanges repos false remainingChars in
        stagedChanges ++ unstagedChanges
    end.

End GitProvider.

End Changes.

(* ================================================================== *)
(** ** Server status check, panel loading and the client timeout *)
(* ================================================================== *)

Module Lifecycle.
Local Set Warnings "-register-all".
Import Capability.

(** A JSON value of the server health record. *)
Inductive HVal :=
  | HUndefined
  | HNull
  | HBool (b : bool)
  | HNum (z : Z)
  | HStr (s : string)
  | HObj (fields : list (string * HVal)).

(** JavaScript truthiness. *)
Definition truthy (v : HVal) : bool :=
  match v with
  | HUndefined | HNull => false
  | HBool b => b
  | HNum z => negb (Z.eqb z 0)
  | HStr s => negb (String.eqb s "")
  | HObj _ => true
  end.

Definition hfind (o : list (string * HVal)) (k : string) : option HVal :=
  match find (fun p => String.eqb (fst p) k) o with
  | Some (_, v) => Some v
  | None => None
  end.

(** [o[k]]: an absent key reads as undefined. *)
Definition hget (o : list (string * HVal)) (k : string) : HVal :=
  match hfind o k with Some v => v | None => HUndefined end.

(** [k in o], for a key that is no member of [Object.prototype]. *)
Definition hhas (o : list (string * HVal)) (k : string) : bool :=
  match hfind o k with Some _ => true | None => false end.

(** [StatusInfo] of tabby-agent: the connection status and the health
    record reported by the server. *)
Record StatusInfo := mkStatusInfo {
  status : string;
  serverHealth : option (list (string * HVal))
}.

Definition dq : string := String (ascii_of_nat 34) "".

Definition msg_connecting : string :=
  "Connecting to the Tabby server...<br/><span class=" ++ dq ++ "loader" ++ dq ++ "></span>".

Definition msg_unauthorized : string :=
  "Your token is invalid.<br/><a href='command:tabby.updateToken'><b>Update Token</b></a>".

Definition msg_disconnected : string :=
  "Failed to connect to the Tabby server.<br/><a href='command:tabby.connectToServer'><b>Connect To Server</b></a>".

Definition msg_no_health : string := "Cannot get the health status of the Tabby server.".

Definition msg_chat_model : string :=
  "You need to launch the server with the chat model enabled; for example, use `--chat-model Qwen2-1.5B-Instruct`.".

Definition MIN_VERSION : string := "0.27.0".

(** A [SemVer] renders as MAJOR.MINOR.PATCH. *)
Definition show_version (v : nat * nat * nat) : string :=
  let '(a, b, c) := v in
  Str.show_nat a ++ "." ++ Str.show_nat b ++ "." ++ Str.show_nat c.

Definition msg_version (v : nat * nat * nat) : string :=
  "Tabby Chat requires Tabby server version " ++ MIN_VERSION ++
  " or later. Your server is running version " ++ show_version v ++ ".".

(** [semver.lt(v, b)] for a coerced (release) version [v]. *)
Definition semver_lt (v : nat * nat * nat) (b : string) : bool :=
  match parse_semver b with
  | Some y => negb (version_ge v y)
  | None => false
  end.

Section StatusCheck.

(** [semver.coerce] (semver library): the release version read off a
    string, if any. *)
Variable coerce : string -> option (nat * nat * nat).

(** The version read off [health["version"]]. *)
Definition health_version (v : HVal) : option (nat * nat * nat) :=
  match v with
  | HStr s => coerce s
  | HObj o =>
      if hhas o "git_describe" then
        match hget o "git_describe" with
        | HStr s => coerce s
        | _ => None
        end
      else None
  | _ => None
  end.

(** [checkStatusInfo]: [None] when there is no error. *)
Definition checkStatusInfo (statusInfo : option StatusInfo) : option string :=
  match statusInfo with
  | None => Some msg_connecting
  | Some si =>
      if String.eqb (status si) "connecting" then Some msg_connecting
      else if String.eqb (status si) "unauthorized" then Some msg_unauthorized
      else if String.eqb (status si) "disconnected" then Some msg_disconnected
      else
        match serverHealth si with
        | None => Some msg_no_health
        | Some health =>
            if negb (truthy (hget health "webserver")) || negb (truthy (hget health "chat_model"))
            then Some msg_chat_model
            else if truthy (hget health "version") then
              match health_version (hget health "version") with
              | Some version =>
                  if semver_lt version MIN_VERSION then Some (msg_version version) else None
              | None => None
              end
            else None
        end
  end.

End StatusCheck.

(** [Config["server"]]: the panel compares [endpoint] and [token] only. *)
Record ServerConfig := mkServerConfig {
  endpoint : string;
  token : string;
  requestHeaders : list (string * string)
}.

(** [webview.html]: the template file (outside src) and the values
    substituted for its placeholders, in the order of the [replace] calls. *)
Record Html := mkHtml { template : string; substitutions : list (string * string) }.

Record LState := mkLState {
  webview : bool;
  cap : Capability.State;
  currentConfig : option ServerConfig;
  reloadCount : nat;
  html : option Html;
  statusEvents : list string;
  timers : list bool;
  createClientTimeout : option nat;
  posted : list string
}.

Definition set_client (c : option ServerApiList) (s : Capability.State) : Capability.State :=
  mkState c (pendingActions s) (panelLog s) (currentToken s) (isMac s).

Definition set_config (c : option ServerConfig) (st : LState) : LState :=
  mkLState (webview st) (cap st) c (reloadCount st) (html st) (statusEvents st)
    (timers st) (createClientTimeout st) (posted st).

(** [clearTimeout(id)]: timer [id] no longer fires. *)
Fixpoint clear_timer (id : nat) (ts : list bool) : list bool :=
  match ts, id with
  | [], _ => []
  | _ :: r, 0 => false :: r
  | b :: r, S k => b :: clear_timer k r
  end.

(** [this.currentConfig?.endpoint ?? ""]. *)
Definition endpoint_or_empty (c : option ServerConfig) : string :=
  match c with Some cfg => endpoint cfg | None => "" end.

Section Pages.

(** [getUriStylesheet()] and [getUriAvatarTabby()] of the webview. *)
Variable uriStylesheet uriAvatarTabby : string.

(** [loadChatPanel]; the [initChatPanel] it starts resumes when the client
    is created (see [initChatPanel] below). *)
Definition loadChatPanel (st : LState) : LState :=
  if negb (webview st) then st
  else
    let rc := S (reloadCount st) in
    mkLState (webview st) (set_client None (cap st)) (currentConfig st) rc
      (Some (mkHtml "main.html"
               [("{{RELOAD_COUNT}}", Str.show_nat rc);
                ("{{SERVER_ENDPOINT}}", endpoint_or_empty (currentConfig st));
                ("{{URI_STYLESHEET}}", uriStylesheet);
                ("{{URI_AVATAR_TABBY}}", uriAvatarTabby)]))
      (statusEvents st ++ ["loading"]) (timers st) (createClientTimeout st)
      (posted st).

(** [loadErrorPage(message)]. *)
Definition loadErrorPage (message : string) (st : LState) : LState :=
  if negb (webview st) then st
  else
    let rc := S (reloadCount st) in
    mkLState (webview st) (set_client None (cap st)) (currentConfig st) rc
      (Some (mkHtml "error.html"
               [("{{RELOAD_COUNT}}", Str.show_nat rc);
                ("{{URI_STYLESHEET}}", uriStylesheet);
                ("{{URI_AVATAR_TABBY}}", uriAvatarTabby);
                ("{{ERROR_MESSAGE}}", message)]))
      (statusEvents st ++ ["error"]) (timers st) (createClientTimeout st)
      (posted st).

Variable coerce : string -> option (nat * nat * nat).

(** [checkStatusAndLoadContent], given the current [status] and
    [agentConfig.current.server] of the language client. *)
Definition checkStatusAndLoadContent (statusInfo : option StatusInfo)
    (config : option ServerConfig) (st : LState) : LState :=
  match checkStatusInfo coerce statusInfo with
  | Some error => loadErrorPage error (set_config None st)
  | None =>
      match config with
      | None => loadErrorPage "Cannot get the server configuration." (set_config None st)
      | Some cfg =>
          let changed :=
            match currentConfig st with
            | None => true
            | Some cur => negb (String.eqb (endpoint cur) (endpoint cfg)) ||
                          negb (String.eqb (token cur) (token cfg))
            end in
          if changed then loadChatPanel (set_config (Some cfg) st) else st
      end
  end.

(** The message of the [chatIframeLoaded] timeout. *)
Definition uri_unreserved (c : ascii) : bool :=
  Str.is_digit c || Str.is_upper c || Str.is_lower c ||
  existsb (Ascii.eqb c) ["-"; "_"; "."; "!"; "~"; "*"; "'"; "("; ")"]%char.

Definition hex_digit (n : nat) : ascii :=
  if Nat.ltb n 10 then ascii_of_nat (48 + n) else ascii_of_nat (55 + n).

(** [encodeURIComponent] on the UTF-8 bytes of a string. *)
Fixpoint encodeURIComponent (s : string) : string :=
  match s with
  | EmptyString => EmptyString
  | String c r =>
      if uri_unreserved c then String c (encodeURIComponent r)
      else String "%"%char (String (hex_digit (nat_of_ascii c / 16))
             (String (hex_digit (nat_of_ascii c mod 16)) (encodeURIComponent r)))
  end.

Definition msg_load_failed (ep : string) : string :=
  let command := ("command:tabby.openExternal?" ++
                  encodeURIComponent ("[" ++ dq ++ ep ++ "/chat" ++ dq ++ "]"))%string in
  "Failed to load the chat panel. <br/>Please check your network to ensure access to <a href='" ++
  command ++ "'>" ++ ep ++
  "/chat</a>. <br/><br/><a href='command:tabby.reconnectToServer'><b>Reload</b></a>".

(** The [chatIframeLoaded] message: a new 10 s timer, whose handle
    replaces the one kept in [createClientTimeout]. *)
Definition chatIframeLoaded (st : LState) : LState :=
  mkLState (webview st) (cap st) (currentConfig st) (reloadCount st) (html st) (statusEvents st)
    (timers st ++ [true]) (Some (List.length (timers st))) (posted st).

(** The timer callback. *)
Definition timeoutHandler (statusInfo : option StatusInfo) (config : option ServerConfig)
    (st : LState) : LState :=
  let ep := endpoint_or_empty (currentConfig st) in
  if String.eqb ep "" then checkStatusAndLoadContent statusInfo config st
  else loadErrorPage (msg_load_failed ep) st.

(** Timer [id] fires: it runs once, unless it was cleared. *)
Definition fireTimer (id : nat) (statusInfo : option StatusInfo) (config : option ServerConfig)
    (st : LState) : LState :=
  if nth id (timers st) false then
    timeoutHandler statusInfo config
      (mkLState (webview st) (cap st) (currentConfig st) (reloadCount st) (html st)
         (statusEvents st) (clear_timer id (timers st)) (createClientTimeout st)
         (posted st))
  else st.

End Pages.

(** [initChatPanel], from the moment [createChatPanelApiClient] resolves
    to the handle [h]; [showChatPanel] is posted only when the awaited
    [client["0.8.0"].init(...)] does not throw. *)
Definition initChatPanel (h : ServerApiList) (st : LState) : LState :=
  let tok := match currentConfig st with Some c => token c | None => "" end in
  let c := cap st in
  let shown := match call_required h "0.8.0" "init" (ArgInit tok (isMac c)) with
               | TypeError => []
               | _ => ["showChatPanel"]
               end in
  let c' := Capability.initChatPanel h
              (mkState (client c) (pendingActions c) (panelLog c) tok (isMac c)) in
  let ts := match createClientTimeout st with
            | Some id => clear_timer id (timers st)
            | None => timers st
            end in
  mkLState (webview st) c' (currentConfig st) (reloadCount st) (html st)
    (statusEvents st ++ ["ready"]) ts None (posted st ++ shown).

(** [dispose]. *)
Definition dispose (st : LState) : LState :=
  let ts := match createClientTimeout st with
            | Some id => clear_timer id (timers st)
            | None => timers st
            end in
  mkLState false (set_client None (cap st)) None (reloadCount st) (html st)
    (statusEvents st) ts None (posted st).

End Lifecycle.

(* ================================================================== *)
(** ** Callbacks invoked through postMessage *)
(* ================================================================== *)

Module Callbacks.
Import Lifecycle.

(** [pendingCallbacks] maps a callback id to the [isFocused] promise it
    resolves; [promises] holds each promise's value once resolved. *)
Record CbState := mkCb {
  cbWebview : bool;
  pendingCallbacks : list (string * nat);
  promises : list (option HVal);
  cbPosted : list (string * string)
}.

Definition cb_get (m : list (string * nat)) (k : string) : option nat :=
  match find (fun p => String.eqb (fst p) k) m with
  | Some (_, v) => Some v
  | None => None
  end.

Fixpoint cb_set (m : list (string * nat)) (k : string) (v : nat) : list (string * nat) :=
  match m with
  | [] => [(k, v)]
  | (k', v') :: rest => if String.eqb k' k then (k, v) :: rest else (k', v') :: cb_set rest k v
  end.

Definition cb_delete (m : list (string * nat)) (k : string) : list (string * nat) :=
  filter (fun p => negb (String.eqb (fst p) k)) m.

(** Resolving promise [n]: a settled promise keeps its value. *)
Definition resolve (n : nat) (v : HVal) (ps : list (option HVal)) : list (option HVal) :=
  match nth n ps None with
  | None => firstn n ps ++ match skipn n ps with [] => [] | _ :: r => Some v :: r end
  | Some _ => ps
  end.

(** [isFocused()], with the fresh [uuid()] it draws; also returns the
    index of its promise. *)
Definition isFocused (id : string) (st : CbState) : CbState * nat :=
  let n := List.length (promises st) in
  if negb (cbWebview st) then
    (mkCb (cbWebview st) (pendingCallbacks st) (promises st ++ [Some (HBool false)]) (cbPosted st), n)
  else
    (mkCb (cbWebview st) (cb_set (pendingCallbacks st) id n) (promises st ++ [None])
       (cbPosted st ++ [(id, "checkFocused")]), n).

(** The [jsCallback] message. *)
Definition jsCallback (id : string) (args : list HVal) (st : CbState) : CbState :=
  let ps := match cb_get (pendingCallbacks st) id with
            | Some n => resolve n (match args with a :: _ => a | [] => HUndefined end) (promises st)
            | None => promises st
            end in
  mkCb (cbWebview st) (cb_delete (pendingCallbacks st) id) ps (cbPosted st).

End Callbacks.

(* ================================================================== *)
(** ** Applying code blocks in the editor *)
(* ================================================================== *)

Module Apply.
Import Panel Lookup.

(** [\s] on ASCII text: tab, line feed, vertical tab, form feed, carriage
    return and space. *)
Definition is_space (c : ascii) : bool :=
  let n := nat_of_ascii c in (Nat.leb 9 n && Nat.leb n 13) || Nat.eqb n 32.

(** The text matched by the leading-whitespace pattern of [applyInEditor]:
    the longest prefix of [\s] characters. *)
Fixpoint leading_ws (s : string) : string :=
  match s with
  | EmptyString => EmptyString
  | String c r => if is_space c then String c (leading_ws r) else EmptyString
  end.

(** [String.prototype.repeat]. *)
Fixpoint repeat_str (u : string) (n : nat) : string :=
  match n with
  | 0 => EmptyString
  | S k => u ++ repeat_str u k
  end.

(** [String.prototype.replaceAll] with a one-character search string. *)
Fixpoint replaceAllChar (s : string) (c : ascii) (rep : string) : string :=
  match s with
  | EmptyString => EmptyString
  | String x r =>
      if Ascii.eqb x c then rep ++ replaceAllChar r c rep
      else String x (replaceAllChar r c rep)
  end.

Definition nl : ascii := ascii_of_nat 10.

(** The text inserted by [applyInEditor]. *)
Definition indentedContent (lineText : string) (startCharacter : nat) (content : string) : string :=
  let indent := leading_ws lineText in
  let indentUnit := String.get 0 indent in
  let indentAmountForTheFirstLine := String.length indent - startCharacter in
  let indentForTheFirstLine :=
    match indentUnit with
    | Some u => repeat_str (String u EmptyString) indentAmountForTheFirstLine
    | None => EmptyString
    end in
  indentForTheFirstLine ++ replaceAllChar content nl (String nl indent).

(** [document.lineAt(line).text]: the line without its line break. *)
Definition lineAt (d : TextDocument) (l : nat) : string :=
  let st := nth l (line_starts (text d)) 0 in
  let raw := String.substring st (line_end d l - st) (text d) in
  match String.get (String.length raw - 1) raw with
  | Some c => if Nat.eqb (nat_of_ascii c) 13 then String.substring 0 (String.length raw - 1) raw
              else raw
  | None => raw
  end.

(** [applyInEditor(editor, content)]: the edit replacing the selection. *)
Definition applyInEditor (d : TextDocument) (selection : Range) (content : string)
    : Range * string :=
  (selection, indentedContent (lineAt d (fst (start selection))) (snd (start selection)) content).

(** What [onApplyInEditorV2] does. *)
Inductive ApplyStep :=
  | ShowErrorMessage (m : string)
  | ShowInformationMessage (m : string)
  | NormalApply
  | SmartApply.

Record ApplyOptions := mkApplyOptions { languageId : option string; smart : option bool }.

(** [onApplyInEditorV2(content, options)], for the active editor given by
    its document's language id. *)
Definition onApplyInEditorV2 (editorLanguageId : option string) (options : option ApplyOptions)
    : list ApplyStep :=
  match editorLanguageId with
  | None => [ShowErrorMessage "No active editor found."]
  | Some lang =>
      match options with
      | None => [NormalApply]
      | Some o =>
          if negb (match smart o with Some b => b | None => false end) then [NormalApply]
          else if negb (match languageId o with Some l => String.eqb lang l | None => false end)
          then [NormalApply;
                ShowInformationMessage "The active editor is not in the correct language. Did normal apply."]
          else [SmartApply]
      end
  end.

(** The steps that apply the content to the editor. *)
Definition is_apply (s : ApplyStep) : bool :=
  match s with NormalApply | SmartApply => true | _ => false end.

(** The lines of a text, as [text.split("\n")] gives them. *)
Fixpoint split_nl (s : string) : list string :=
  match s with
  | EmptyString => [EmptyString]
  | String c r =>
      if Ascii.eqb c nl then EmptyString :: split_nl r
      else match split_nl r with
           | l :: ls => String c l :: ls
           | [] => [String c EmptyString]
           end
  end.

End Apply.

(* ================================================================== *)
(** ** Workspace requests of the panel *)
(* ================================================================== *)

Module Host.
Import Panel Lookup.

Section GitRepositories.

Variable Repository : Type.
Variable getRepository : string -> option Repository.
Variable getDefaultRemoteUrl : Repository -> option string.

(** The remote URL of the repository of a URI, when it is truthy. *)
Definition remote_of (u : string) : option string :=
  match getRepository u with
  | Some repo =>
      match getDefaultRemoteUrl repo with
      | Some url => if String.eqb url "" then None else Some url
      | None => None
      end
  | None => None
  end.

(** [readWorkspaceGitRepositories()], as the list of the [url] fields. *)
Definition readWorkspaceGitRepositories (activeDocUri : option string)
    (workspaceFolders : option (list string)) : list string :=
  let activeGitUrl : option string := None in
  let fromActive :=
    match activeDocUri with
    | Some u => match remote_of u with Some url => [url] | None => [] end
    | None => []
    end in
  let fromFolders :=
    flat_map (fun folder =>
                match remote_of folder with
                | Some url =>
                    if match activeGitUrl with Some a => negb (String.eqb url a) | None => true end
                    then [url] else []
                | None => []
                end)
             (match workspaceFolders with Some fs => fs | None => [] end) in
  fromActive ++ fromFolders.

End GitRepositories.

Record Uri := mkUri { scheme : string; fsPath : string }.

(** Commands sent through [commands.executeCommand]. *)
Inductive Command :=
  | OutputShow (id : string)
  | GoToLocations (u : Uri) (position : Position) (locations : list (Uri * Range)) (mode : string).

Section Files.

(** [chatPanelFilepathToLocalUri] and [chatPanelLocationToVSCodeRange]
    (utils.ts), [commands.executeCommand] and [workspace.openTextDocument],
    any of the last two possibly throwing. *)
Variable chatPanelFilepathToLocalUri : Filepath -> option Uri.
Variable Location : Type.
Variable chatPanelLocationToVSCodeRange : option Location -> option Range.
Variable executeCommand : Command -> Result unit.
Variable openTextDocument : Uri -> Result TextDocument.

(** [openInEditor(fileLocation)]: the result and the commands sent. *)
Definition openInEditor (filepath : Filepath) (location : option Location) : bool * list Command :=
  match chatPanelFilepathToLocalUri filepath with
  | None => (false, [])
  | Some u =>
      if String.eqb (scheme u) "output" then
        let c := OutputShow ("workbench.action.output.show." ++ fsPath u) in
        (match executeCommand c with Ok _ => true | Err _ => false end, [c])
      else
        let targetRange :=
          match chatPanelLocationToVSCodeRange location with
          | Some r => r
          | None => newRange (0, 0) (0, 0)
          end in
        let c := GoToLocations u (start targetRange) [(u, targetRange)] "goto" in
        (match executeCommand c with Ok _ => true | Err _ => false end, [c])
  end.

(** [readFileContent(info)]: an error of [openTextDocument] rejects the
    returned promise. *)
Definition readFileContent (filepath : Filepath) (range : option Location)
    : Result (option string) :=
  match chatPanelFilepathToLocalUri filepath with
  | None => Ok None
  | Some u =>
      match openTextDocument u with
      | Err e => Err e
      | Ok d =>
          Ok (Some (match chatPanelLocationToVSCodeRange range with
                    | Some r => getTextRange d r
                    | None => getText d
                    end))
      end
  end.

End Files.

End Host.


(* ================================================================== *)
(** ** What a lookupSymbol result says about the document *)
(* ================================================================== *)

Module LookupResult.
Import Panel Lookup.

Section Found.
Variable executeDefinitionProvider : string -> Position -> list DefLocation.
Variable localUriToChatPanelFilepath : string -> Filepath.

(** [si] was found in the opened document [d]: its source is a position of
    [d] at which the text of [d] reads [symbol], and its target is the first
    definition the provider returns at that position. *)
Definition found_in (symbol : string) (d : TextDocument) (si : SymbolInfo) : Prop :=
  fl_filepath (source si) = localUriToChatPanelFilepath (uri d) /\
  String.substring (offsetAt d (fl_position (source si))) (String.length symbol) (text d) = symbol /\
  exists loc rest, executeDefinitionProvider (uri d) (fl_position (source si)) = loc :: rest /\
    target si = match loc with
                | LocationLink tu tr tsr =>
                    mkFileRange (localUriToChatPanelFilepath tu) (match tsr with Some r => r | None => tr end)
                | PlainLocation lu r => mkFileRange (localUriToChatPanelFilepath lu) r
                end.

End Found.

End LookupResult.

(* ================================================================== *)
(** ** The order of listSymbols results *)
(* ================================================================== *)

Module SymbolsOrder.
Import Symbols.

(** [a] may come before [b] in the sorted results: a higher match score,
    or the same score and a label that is not longer. *)
Definition ranked (query : string) (a b : ListSymbolItem) : Prop :=
  getMatchScore query (item_label b) < getMatchScore query (item_label a) \/
  (getMatchScore query (item_label a) = getMatchScore query (item_label b) /\
   String.length (item_label a) <= String.length (item_label b)).

End SymbolsOrder.

(* ================================================================== *)
(** ** Subsequences of a list *)
(* ================================================================== *)

Module Subsequence.

(** [subseq l l']: [l] is [l'] with some elements left out, the others
    kept in order. *)
Inductive subseq {A : Type} : list A -> list A -> Prop :=
  | subseq_nil : subseq [] []
  | subseq_skip x l l' : subseq l l' -> subseq l (x :: l')
  | subseq_take x l l' : subseq l l' -> subseq (x :: l) (x :: l').

End Subsequence.

(* ================================================================== *)
(** ** Concrete panel states used by the examples *)
(* ================================================================== *)

Module LifecycleSamples.
Import Capability Lifecycle.

Definition sample_coerce (s : string) : option (nat * nat * nat) := parse_semver s.

(** A healthy 0.28.0 server with a chat model. *)
Definition healthy_status : option StatusInfo :=
  Some (mkStatusInfo "ready"
          (Some [("webserver", HBool true); ("chat_model", HStr "Qwen2-1.5B-Instruct");
                 ("version", HStr "0.28.0")])).

Definition disconnected_status : option StatusInfo := Some (mkStatusInfo "disconnected" None).

Definition local_server : ServerConfig := mkServerConfig "http://localhost:8080" "auth_token" [].

Definition local_server_with_header : ServerConfig :=
  mkServerConfig "http://localhost:8080" "auth_token" [("X-Team", "a")].

Definition fresh_panel (cfg : option ServerConfig) : LState :=
  mkLState true (mkState None [] [] "" false) cfg 0 None [] [] None [].

(** A panel with a webview and one earlier [isFocused] still pending. *)
Definition panel_with_pending_callback : Callbacks.CbState :=
  Callbacks.mkCb true [("5f0c", 0)] [None] [("5f0c", "checkFocused")].

End LifecycleSamples.
(* ================================================================== *)
(** ** Concrete inputs used by the examples below *)
(* ================================================================== *)

Module Samples.
Import Panel Capability Lookup.

Definition sample_handle : ServerApiList :=
  [("0.8.0", ["init"; "updateActiveSelection"; "addRelevantContext"; "executeCommand"])].

(** A C file whose line 0 declares [x]; line 1 does not mention it. *)
Definition sample_doc : TextDocument :=
  mkDoc "file:///a.c" ("int x;" ++ String (ascii_of_nat 10) ("foo();" ++ String (ascii_of_nat 10) "")).

Definition sample_path : Filepath := FilepathUri "file:///a.c".

Definition sample_resolve (f : Filepath) : option string :=
  match f with FilepathUri u => Some u | _ => None end.

Definition sample_open (u : string) : Result TextDocument :=
  if String.eqb u "file:///a.c" then Ok sample_doc else Err "ENOENT".

(** The definition provider knows the declaration of [x] at (0, 4). *)
Definition sample_defs (u : string) (p : Position) : list DefLocation :=
  if pos_eqb p (0, 4) then [PlainLocation "file:///a.c" (mkRangeRaw (0, 4) (0, 5))] else [].

(** Eight top-level symbols [s0] .. [s7], on lines 0 .. 7. *)
Definition sample_symbols8 : list Symbols.ProviderSymbol :=
  map (fun k => Symbols.DocumentSymbol ("s" ++ Str.show_nat k) "" (mkRangeRaw (k, 0) (k, 9)) [])
      (seq 0 8).

Definition no_workspace_symbols (q : string) : Symbols.Provided (list Symbols.SymbolInformation) :=
  Symbols.Provides [].

(** The active file a.ts declares [main] on lines 0 .. 2; the workspace
    provider reports a [main] of b.ts on the same lines. *)
Definition main_range : Range := mkRangeRaw (0, 0) (2, 1).

Definition sample_main_symbols : list Symbols.ProviderSymbol :=
  [Symbols.DocumentSymbol "main" "" main_range []].

Definition sample_main_workspace (q : string) : Symbols.Provided (list Symbols.SymbolInformation) :=
  Symbols.Provides [Symbols.mkSymbolInformation "main" "" "file:///b.ts" main_range].

(** A diff text of [n] characters. *)
Fixpoint diff_of_length (n : nat) : string :=
  match n with
  | 0 => EmptyString
  | S k => String "+"%char (diff_of_length k)
  end.

(** Repository 0 has staged diffs of 60 and 50 characters, repository 1 a
    staged diff of 10 characters. *)
Definition two_repo_diffs (r : nat) (stg : bool) : option (list string) :=
  match r, stg with
  | 0, true => Some [diff_of_length 60; diff_of_length 50]
  | 1, true => Some [diff_of_length 10]
  | _, _ => Some []
  end.

(** One repository: staged diffs of 30 and 50 characters, one unstaged diff
    of 50 characters. *)
Definition one_repo_diffs (r : nat) (stg : bool) : option (list string) :=
  if stg then Some [diff_of_length 30; diff_of_length 50] else Some [diff_of_length 50].

End Samples.

(* ================================================================== *)
(** ** Deferred actions and the version check: proofs *)
(* ================================================================== *)

Module CapabilityFacts.
Import Capability.

Lemma flush_log (fns : list HostOp) :
  forall st, flush st fns =
    mkState (client st) (pendingActions st)
      (panelLog st ++ map (fun o => Flushed o (run_pending (client st) o)) fns)
      (currentToken st) (isMac st).
Proof.
  induction fns as [|o rest IH]; intros st; simpl.
  - rewrite app_nil_r. destruct st; reflexivity.
  - rewrite IH. simpl. rewrite <- app_assoc. reflexivity.
Qed.

Lemma host_ops_without_client (ops : list HostOp) :
  forall st, client st = None ->
    fold_left host_op ops st =
      mkState None (pendingActions st ++ ops) (panelLog st) (currentToken st) (isMac st).
Proof.
  induction ops as [|o rest IH]; intros st Hc; simpl.
  - rewrite app_nil_r. destruct st; simpl in *; subst; reflexivity.
  - unfold host_op at 2. rewrite Hc. rewrite IH by reflexivity. simpl.
    rewrite <- app_assoc. reflexivity.
Qed.

Lemma host_ops_with_client (h : ServerApiList) (ops : list HostOp) :
  forall st, client st = Some h ->
    fold_left host_op ops st =
      mkState (Some h) (pendingActions st)
        (panelLog st ++ map (fun o => Direct o (dispatch h o)) ops)
        (currentToken st) (isMac st).
Proof.
  induction ops as [|o rest IH]; intros st Hc; simpl.
  - rewrite app_nil_r. destruct st; simpl in *; subst; reflexivity.
  - unfold host_op at 2. rewrite Hc. rewrite IH by reflexivity. simpl.
    rewrite <- app_assoc. reflexivity.
Qed.

Lemma get_key_cons_neq (k v : string) (ops : list string) (h : ServerApiList) :
  k <> v -> get_key ((k, ops) :: h) v = get_key h v.
Proof.
  intros Hne. unfold get_key. simpl.
  destruct (String.eqb_spec k v); [contradiction | reflexivity].
Qed.

End CapabilityFacts.

Module CapabilityClaims.
Import Capability CapabilityFacts Samples.

(** C1: operations issued while the handle is undefined are queued, in
    order; when the handle is created each queued operation makes, after
    the handle is set, the call its direct path makes on that handle, once,
    in the order queued, before the [init] call; the queue is then empty,
    and later operations go straight to the handle without replaying any
    queued one. *)
Theorem pending_actions_flushed_once_in_order :
  forall (st0 : State) (ops later : list HostOp) (h : ServerApiList),
    client st0 = None ->
    pendingActions st0 = [] ->
    let st1 := fold_left host_op ops st0 in
    let st2 := initChatPanel h st1 in
    let st3 := fold_left host_op later st2 in
    pendingActions st1 = ops /\ panelLog st1 = panelLog st0 /\
    client st2 = Some h /\ pendingActions st2 = [] /\
    panelLog st2 = panelLog st0 ++ map (fun o => Flushed o (dispatch h o)) ops
                   ++ [InitCall (call_required h "0.8.0" "init"
                                   (ArgInit (currentToken st0) (isMac st0)))] /\
    pendingActions st3 = [] /\
    panelLog st3 = panelLog st2 ++ map (fun o => Direct o (dispatch h o)) later.
Proof.
  intros st0 ops later h Hc Hp st1 st2 st3.
  assert (E1 : st1 = mkState None ops (panelLog st0) (currentToken st0) (isMac st0)).
  { unfold st1. rewrite host_ops_without_client by exact Hc. rewrite Hp. reflexivity. }
  assert (E2 : st2 = mkState (Some h) []
                 (panelLog st0 ++ map (fun o => Flushed o (dispatch h o)) ops
                  ++ [InitCall (call_required h "0.8.0" "init"
                                  (ArgInit (currentToken st0) (isMac st0)))])
                 (currentToken st0) (isMac st0)).
  { unfold st2. rewrite E1. unfold initChatPanel. simpl.
    rewrite flush_log. simpl. rewrite <- app_assoc. reflexivity. }
  assert (E3 : st3 = mkState (Some h) []
                 (panelLog st2 ++ map (fun o => Direct o (dispatch h o)) later)
                 (currentToken st0) (isMac st0)).
  { unfold st3. rewrite (host_ops_with_client h) by (rewrite E2; reflexivity).
    rewrite E2. reflexivity. }
  rewrite E3, E2, E1. simpl.
  repeat split; reflexivity.
Qed.

Lemma pending_actions_flushed_once_in_order_witness :
  let st0 := mkState None [] [] "token" false in
  let ops := [SetActiveSelection (FileContext "a.ts" "x");
              ExecuteCommand "explain"] in
  let later := [AddRelevantContext (FileContext "b.ts" "y")] in
  let st1 := fold_left host_op ops st0 in
  let st2 := initChatPanel sample_handle st1 in
  let st3 := fold_left host_op later st2 in
  pendingActions st1 = ops /\ panelLog st1 = panelLog st0 /\
  client st2 = Some sample_handle /\ pendingActions st2 = [] /\
  panelLog st2 = panelLog st0 ++ map (fun o => Flushed o (dispatch sample_handle o)) ops
                 ++ [InitCall (call_required sample_handle "0.8.0" "init"
                                 (ArgInit (currentToken st0) (isMac st0)))] /\
  pendingActions st3 = [] /\
  panelLog st3 = panelLog st2 ++ map (fun o => Direct o (dispatch sample_handle o)) later.
Proof.
  apply (pending_actions_flushed_once_in_order
           (mkState None [] [] "token" false)); reflexivity.
Defined.

(** C2 (as amended): the code's version check takes no operation.  It holds
    iff the handle is defined and one of its keys is a valid version
    [w] with [w >= v]; [isTerminalContextEnabled] is that check at 0.10.0.
    Calls owned by the optional key 0.10.0 are skipped when the key is
    absent, while calls owned by 0.8.0 read that key without a guard and
    raise when it is absent. *)
Theorem version_check_and_call_guards :
  forall (c : option ServerApiList) (v : string) (h : ServerApiList)
         (ctx : EditorContext) (sel : EditorContext) (cmd : string),
    (supportsVersion c v = true <->
       exists hd w ops, c = Some hd /\ In (w, ops) hd /\
                        semver_valid w = true /\ isCompatible w v = true) /\
    isTerminalContextEnabled c = supportsVersion c "0.10.0" /\
    (get_key h "0.10.0" = None -> is_terminal ctx = true ->
       dispatch h (AddRelevantContext ctx) = Skipped /\
       dispatch h (ExecuteCommand "explain-terminal") = Skipped) /\
    (get_key h "0.8.0" = None -> is_terminal ctx = false ->
       String.eqb cmd "explain-terminal" = false ->
       dispatch h (SetActiveSelection sel) = TypeError /\
       dispatch h (AddRelevantContext ctx) = TypeError /\
       dispatch h (ExecuteCommand cmd) = TypeError).
Proof.
  intros c v h ctx sel cmd. split; [|split; [reflexivity|split]].
  - unfold supportsVersion, getApiVersions. rewrite existsb_exists. split.
    + intros [w [Hin Hw]]. apply filter_In in Hin as [Hin Hv].
      apply in_map_iff in Hin as [[k ops] [Hk Hin]]. simpl in Hk. subst k.
      destruct c as [hd|]; [|contradiction].
      exists hd, w, ops. auto.
    + intros [hd [w [ops [-> [Hin [Hv Hw]]]]]]. exists w. split; [|exact Hw].
      apply filter_In. split; [|exact Hv].
      apply in_map_iff. exists (w, ops). auto.
  - intros Hk Ht. unfold dispatch. rewrite Ht. unfold call_optional.
    rewrite Hk. auto.
  - intros Hk Ht Hcmd. unfold dispatch. rewrite Ht, Hcmd.
    unfold call_required. rewrite Hk. auto.
Qed.

Lemma version_check_and_call_guards_witness :
  isTerminalContextEnabled (Some [("0.10.0", [])]) = true /\
  dispatch [("0.10.0", ["addRelevantContext"])]
    (AddRelevantContext (TerminalContext "bash" "ls")) =
    Invoked "0.10.0" "addRelevantContext" (ArgContext (TerminalContext "bash" "ls")).
Proof.
  destruct (version_check_and_call_guards (Some [("0.10.0", [])]) "0.10.0"
              [("0.10.0", ["addRelevantContext"])] (TerminalContext "bash" "ls")
              (FileContext "a" "") "x") as [[_ Hiff] _].
  split.
  - apply Hiff. exists [("0.10.0", [])], "0.10.0", []. repeat split; simpl; auto.
  - reflexivity.
Defined.

(** C2 refuted: a handle whose 0.10.0 key exposes nothing passes the check
    for 0.10.0 though no key exposes [addRelevantContext], and on a handle
    without the 0.8.0 key [setActiveSelection] raises instead of being
    skipped. *)
Lemma version_check_claim_counterexample :
  (isTerminalContextEnabled (Some [("0.10.0", [])]) = true /\
   ~ exists w ops, In (w, ops) [("0.10.0", [])] /\ In "addRelevantContext" ops) /\
  (get_key [("0.10.0", ["addRelevantContext"; "executeCommand"])] "0.8.0" = None /\
   dispatch [("0.10.0", ["addRelevantContext"; "executeCommand"])]
     (SetActiveSelection (FileContext "a.ts" "x")) = TypeError).
Proof.
  split; split.
  - reflexivity.
  - intros [w [ops [Hin Hop]]]. simpl in Hin.
    destruct Hin as [E|[]]. inversion E; subst. exact Hop.
  - reflexivity.
  - reflexivity.
Qed.

End CapabilityClaims.

(* ================================================================== *)
(** ** lookupSymbol: proofs *)
(* ================================================================== *)

Module LookupFacts.
Import Panel Lookup.

Lemma newline_offsets_gt (s : string) :
  forall i x, In x (newline_offsets s i) -> i < x <= i + String.length s.
Proof.
  induction s as [|c r IH]; intros i x Hin; simpl in *; [contradiction|].
  destruct (Ascii.eqb c (ascii_of_nat 10)).
  - destruct Hin as [<-|Hin]; [lia|]. apply IH in Hin. lia.
  - apply IH in Hin. lia.
Qed.

Lemma newline_offsets_sorted (s : string) :
  forall i, StronglySorted lt (newline_offsets s i).
Proof.
  induction s as [|c r IH]; intros i; simpl; [constructor|].
  destruct (Ascii.eqb c (ascii_of_nat 10)); [|apply IH].
  constructor; [apply IH|].
  apply Forall_forall. intros x Hx. apply newline_offsets_gt in Hx. lia.
Qed.

(** In a sorted list, the elements up to the [k]-th are at most [o] when
    the [k]-th is. *)
Lemma filter_le_count (l : list nat) :
  StronglySorted lt l ->
  forall k o, k < List.length l -> nth k l 0 <= o ->
    S k <= List.length (filter (fun x => Nat.leb x o) l).
Proof.
  induction l as [|a l IH]; intros Hs k o Hk Ho; simpl in *; [lia|].
  inversion Hs as [|? ? Hs' Hall]; subst.
  destruct k as [|k].
  - apply Nat.leb_le in Ho. rewrite Ho. simpl. lia.
  - assert (Hlt : a < nth k l 0).
    { rewrite Forall_forall in Hall. apply Hall. apply nth_In. lia. }
    assert (Ha : Nat.leb a o = true) by (apply Nat.leb_le; lia).
    rewrite Ha. simpl. specialize (IH Hs' k o ltac:(lia) Ho). lia.
Qed.

Lemma line_starts_bound (s : string) :
  forall x, In x (line_starts s) -> x <= String.length s.
Proof.
  intros x [<-|Hx]; [lia|]. apply newline_offsets_gt in Hx. lia.
Qed.

Lemma line_starts_sorted (s : string) : StronglySorted lt (line_starts s).
Proof.
  unfold line_starts. constructor; [apply newline_offsets_sorted|].
  apply Forall_forall. intros x Hx. apply newline_offsets_gt in Hx. lia.
Qed.

Lemma sorted_nth_lt (l : list nat) :
  StronglySorted lt l -> forall n, S n < List.length l -> nth n l 0 < nth (S n) l 0.
Proof.
  induction 1 as [|a l Hs IH Hall]; intros n Hn; simpl in Hn; [lia|].
  destruct n as [|n].
  - destruct l as [|b l]; simpl in Hn; [lia|]. simpl. inversion Hall; assumption.
  - apply IH. lia.
Qed.

(** Column 0 of a line of the document is the offset where that line
    starts. *)
Lemma offsetAt_line_start (d : TextDocument) (n : nat) :
  n < lineCount d -> offsetAt d (n, 0) = nth n (line_starts (text d)) 0.
Proof.
  intros Hn. unfold lineCount in Hn. unfold offsetAt, line_end. cbn [fst snd].
  destruct (nth_error (line_starts (text d)) n) as [st|] eqn:E.
  2:{ apply nth_error_None in E. lia. }
  rewrite (nth_error_nth _ _ _ E).
  assert (Hst : In st (line_starts (text d))) by (eapply nth_error_In; eauto).
  destruct (nth_error (line_starts (text d)) (S n)) as [o|] eqn:E'.
  - assert (HSn : S n < List.length (line_starts (text d))).
    { apply nth_error_Some. rewrite E'. discriminate. }
    pose proof (sorted_nth_lt _ (line_starts_sorted (text d)) n HSn) as Hlt.
    rewrite (nth_error_nth _ _ _ E), (nth_error_nth _ _ _ E') in Hlt. lia.
  - apply line_starts_bound in Hst. lia.
Qed.

(** An offset at or after the start of line [n] lies on line [n] or a
    later one. *)
Lemma positionAt_line_ge (d : TextDocument) (n o : nat) :
  n < lineCount d -> nth n (line_starts (text d)) 0 <= o ->
  n <= fst (positionAt d o).
Proof.
  intros Hn Ho. unfold positionAt. simpl.
  destruct n as [|k]; [lia|].
  unfold lineCount, line_starts in Hn. simpl in Hn.
  unfold line_starts in Ho. simpl in Ho.
  apply filter_le_count; [apply newline_offsets_sorted|lia|].
  assert (Hin : In (nth k (newline_offsets (text d) 0) 0) (newline_offsets (text d) 0))
    by (apply nth_In; lia).
  apply newline_offsets_gt in Hin. lia.
Qed.

Section Collaborators.
Variable resolve : Panel.Filepath -> option string.
Variable open_ : string -> Result TextDocument.
Variable defs : string -> Position -> list DefLocation.
Variable tofp : string -> Panel.Filepath.

Lemma first_definition_source (d : TextDocument) (off : nat) (occs : list nat) :
  forall si, first_definition defs tofp d off occs = Some si ->
    exists i, In i occs /\ fl_position (source si) = positionAt d (off + i).
Proof.
  induction occs as [|i rest IH]; intros si H; simpl in H; [discriminate|].
  destruct (defs (uri d) (positionAt d (off + i))) as [|[tu tr tsr|lu r] tl] eqn:E.
  - destruct (IH si H) as [j [Hj Hp]]. exists j. simpl. auto.
  - inversion H; subst. exists i. simpl. auto.
  - inversion H; subst. exists i. simpl. auto.
Qed.

Lemma lookup_hints_ok (symbol : string) (hints : list LookupSymbolHint) :
  exists r, lookup_hints resolve open_ defs tofp symbol hints = Ok r.
Proof.
  induction hints as [|hint rest IH]; simpl; [eauto|].
  destruct (hint_filepath hint) as [fp|]; [|exact IH].
  destruct (resolve fp) as [u|]; [|exact IH].
  destruct (open_ u) as [d|e]; [|exact IH].
  destruct (search_document defs tofp symbol d (hint_location hint)); eauto.
Qed.

End Collaborators.

End LookupFacts.

Module LookupClaims.
Import Panel Lookup LookupFacts Samples.

(** C3 (as amended): for a hint whose location is the single point
    (n, c), the search first scans the window from the start of line [n] to
    the end of the document, and any result found there has its source on
    line [n] or later; when no occurrence in the window yields a
    definition, the whole document is searched, so an earlier occurrence
    may then yield the result. *)
Theorem empty_hint_location_window_then_fallback :
  forall (defs : string -> Position -> list DefLocation) (tofp : string -> Filepath)
         (symbol : string) (d : TextDocument) (n c : nat),
    n < lineCount d ->
    let window := newRange (n, 0) (lineCount d, 0) in
    let inWindow := findSymbolInContent defs tofp symbol d
                      (getTextRange d window) (offsetAt d (start window)) in
    start window = (n, 0) /\ end_ window = (lineCount d, 0) /\
    search_document defs tofp symbol d (Some ((n, c), (n, c))) =
      match inWindow with
      | Some si => Some si
      | None => findSymbolInContent defs tofp symbol d (getText d) 0
      end /\
    (forall si, inWindow = Some si -> n <= fst (fl_position (source si))).
Proof.
  intros defs tofp symbol d n c Hn window inWindow.
  assert (Hw : window = mkRangeRaw (n, 0) (lineCount d, 0)).
  { unfold window, newRange, pos_le. cbn [fst snd].
    replace (Nat.ltb n (lineCount d)) with true by (symmetry; apply Nat.ltb_lt; exact Hn).
    reflexivity. }
  assert (Hp : newRange (n, c) (n, c) = mkRangeRaw (n, c) (n, c)).
  { unfold newRange, pos_le. cbn [fst snd].
    rewrite Nat.ltb_irrefl, Nat.eqb_refl, Nat.leb_refl. reflexivity. }
  split; [rewrite Hw; reflexivity|]. split; [rewrite Hw; reflexivity|]. split.
  - unfold search_document, hint_window. cbn [fst snd]. rewrite Hp.
    unfold isEmpty, pos_eqb. cbn [start end_ fst snd]. rewrite !Nat.eqb_refl.
    cbn [negb andb]. fold window. reflexivity.
  - intros si Hsi. unfold inWindow, findSymbolInContent in Hsi.
    apply first_definition_source in Hsi as [i [_ Hpos]]. rewrite Hpos.
    apply positionAt_line_ge; [exact Hn|].
    rewrite Hw. cbn [start]. rewrite offsetAt_line_start by exact Hn. lia.
Qed.

Lemma empty_hint_location_window_then_fallback_witness :
  1 < lineCount sample_doc /\
  (let window := newRange (1, 0) (lineCount sample_doc, 0) in
   let inWindow := findSymbolInContent sample_defs FilepathUri "x" sample_doc
                     (getTextRange sample_doc window) (offsetAt sample_doc (start window)) in
   start window = (1, 0) /\ end_ window = (lineCount sample_doc, 0) /\
   search_document sample_defs FilepathUri "x" sample_doc (Some ((1, 0), (1, 0))) =
     match inWindow with
     | Some si => Some si
     | None => findSymbolInContent sample_defs FilepathUri "x" sample_doc (getText sample_doc) 0
     end /\
   (forall si, inWindow = Some si -> 1 <= fst (fl_position (source si)))).
Proof.
  split; [vm_compute; lia|].
  apply (empty_hint_location_window_then_fallback sample_defs FilepathUri "x" sample_doc 1 0).
  vm_compute. lia.
Defined.

(** C3 refuted: with a point hint on line 1 and the only occurrence of [x]
    on line 0, [lookupSymbol] returns the definition found from line 0. *)
Lemma empty_hint_location_counterexample :
  exists si,
    lookupSymbol sample_resolve sample_open sample_defs FilepathUri "x"
      (Some [mkHint (Some sample_path) (Some ((1, 0), (1, 0)))]) = Ok (Some si) /\
    fst (fl_position (source si)) < 1.
Proof.
  eexists. split; [vm_compute; reflexivity|]. vm_compute. lia.
Qed.

(** C9: [lookupSymbol] always returns a value and never an error: a name
    that is not a simple identifier gives null; a hint without filepath,
    whose filepath does not resolve, or whose document fails to open is
    skipped and the remaining hints are processed; when no hint yields a
    definition the result is null. *)
Theorem lookupSymbol_never_errors :
  forall (resolve : Filepath -> option string) (open_ : string -> Result TextDocument)
         (defs : string -> Position -> list DefLocation) (tofp : string -> Filepath)
         (symbol : string) (hints : option (list LookupSymbolHint)),
    (exists r, lookupSymbol resolve open_ defs tofp symbol hints = Ok r) /\
    (is_identifier symbol = false ->
       lookupSymbol resolve open_ defs tofp symbol hints = Ok None) /\
    (forall hint rest,
       (hint_filepath hint = None \/
        exists fp, hint_filepath hint = Some fp /\
          (resolve fp = None \/ exists u e, resolve fp = Some u /\ open_ u = Err e)) ->
       lookup_hints resolve open_ defs tofp symbol (hint :: rest) =
       lookup_hints resolve open_ defs tofp symbol rest) /\
    (forall hs : list LookupSymbolHint,
       (forall hint fp u d, In hint hs -> hint_filepath hint = Some fp ->
          resolve fp = Some u -> open_ u = Ok d ->
          search_document defs tofp symbol d (hint_location hint) = None) ->
       lookup_hints resolve open_ defs tofp symbol hs = Ok None).
Proof.
  intros resolve open_ defs tofp symbol hints.
  split; [|split; [|split]].
  - unfold lookupSymbol. destruct (negb (is_identifier symbol)); [eauto|].
    apply lookup_hints_ok.
  - intros Hid. unfold lookupSymbol. rewrite Hid. reflexivity.
  - intros hint rest Hskip. simpl.
    destruct Hskip as [Hn|[fp [Hfp [Hr|[u [e [Hr Ho]]]]]]].
    + rewrite Hn. reflexivity.
    + rewrite Hfp, Hr. reflexivity.
    + rewrite Hfp, Hr, Ho. reflexivity.
  - induction hs as [|hint rest IH]; intros Hnone; simpl; [reflexivity|].
    assert (IH' : lookup_hints resolve open_ defs tofp symbol rest = Ok None)
      by (apply IH; intros; eapply Hnone; eauto; right; assumption).
    destruct (hint_filepath hint) as [fp|] eqn:Hfp; [|exact IH'].
    destruct (resolve fp) as [u|] eqn:Hr; [|exact IH'].
    destruct (open_ u) as [d|e] eqn:Ho; [|exact IH'].
    rewrite (Hnone hint fp u d (or_introl eq_refl) Hfp Hr Ho). exact IH'.
Qed.

Lemma lookupSymbol_never_errors_witness :
  lookupSymbol sample_resolve sample_open sample_defs FilepathUri "1x" None = Ok None /\
  lookup_hints sample_resolve sample_open sample_defs FilepathUri "x"
    [mkHint (Some (FilepathUri "file:///missing.c")) None] = Ok None.
Proof.
  destruct (lookupSymbol_never_errors sample_resolve sample_open sample_defs FilepathUri
              "1x" None) as [_ [H1 _]].
  destruct (lookupSymbol_never_errors sample_resolve sample_open sample_defs FilepathUri
              "x" None) as [_ [_ [H2 _]]].
  split.
  - apply H1. reflexivity.
  - rewrite H2; [reflexivity|]. right. exists (FilepathUri "file:///missing.c").
    split; [reflexivity|]. right. exists "file:///missing.c", "ENOENT". split; reflexivity.
Defined.

End LookupClaims.

(* ================================================================== *)
(** ** listSymbols: proofs *)
(* ================================================================== *)

Module SymbolsFacts.
Import Panel Symbols.

Lemma forest_size_app (l1 l2 : list ProviderSymbol) :
  forest_size (l1 ++ l2) = forest_size l1 + forest_size l2.
Proof. unfold forest_size. rewrite map_app, list_sum_app. reflexivity. Qed.

Lemma sym_size_children (x : ProviderSymbol) : sym_size x = S (forest_size (children x)).
Proof.
  destruct x as [n det r ch|i]; [|reflexivity].
  simpl. f_equal. unfold forest_size.
  induction ch as [|y ys IH]; simpl; [reflexivity|]. rewrite IH. reflexivity.
Qed.

Lemma forest_size_levels (q : list ProviderSymbol) :
  forest_size q = List.length q + forest_size (flat_map children q).
Proof.
  induction q as [|x q IH]; [reflexivity|].
  simpl flat_map. rewrite forest_size_app.
  unfold forest_size at 1. simpl. fold (forest_size q).
  rewrite sym_size_children, IH. simpl. lia.
Qed.

(** The limited loop returns a prefix of the unlimited traversal. *)
Lemma bfs_loop_prefix (docUri : string) (limit fuel : nat) :
  forall queue acc, List.length acc < limit ->
    bfs_loop fuel limit docUri queue acc =
    acc ++ firstn (limit - List.length acc) (bfs_queue fuel docUri queue).
Proof.
  induction fuel as [|f IH]; intros queue acc Hlt; simpl.
  - rewrite firstn_nil, app_nil_r. reflexivity.
  - destruct queue as [|current rest].
    + rewrite firstn_nil, app_nil_r. reflexivity.
    + replace (Nat.ltb (List.length acc) limit) with true by (symmetry; apply Nat.ltb_lt; exact Hlt).
      rewrite length_app. simpl.
      destruct (limit - List.length acc) as [|k] eqn:Ek; [lia|]. simpl.
      destruct (Nat.leb limit (List.length acc + 1)) eqn:El.
      * apply Nat.leb_le in El. assert (k = 0) by lia. subst k. reflexivity.
      * apply Nat.leb_gt in El. rewrite IH by (rewrite length_app; simpl; lia).
        rewrite length_app. simpl. rewrite <- app_assoc. simpl.
        replace (limit - (List.length acc + 1)) with k by lia. reflexivity.
Qed.

Lemma bfs_queue_level (docUri : string) (xs : list ProviderSymbol) :
  forall fuel r, List.length xs <= fuel ->
    bfs_queue fuel docUri (xs ++ r) =
    map (convert docUri) xs ++
      bfs_queue (fuel - List.length xs) docUri (r ++ flat_map children xs).
Proof.
  induction xs as [|x xs IH]; intros fuel r Hf.
  - simpl. rewrite app_nil_r, Nat.sub_0_r. reflexivity.
  - destruct fuel as [|f]; simpl in Hf; [lia|].
    simpl. rewrite <- app_assoc. rewrite IH by lia.
    rewrite <- app_assoc. reflexivity.
Qed.

Lemma bfs_queue_nil (docUri : string) (fuel : nat) : bfs_queue fuel docUri [] = [].
Proof. destruct fuel; reflexivity. Qed.

(** The queue traversal visits the forest level by level. *)
Lemma bfs_queue_levels (docUri : string) (n : nat) :
  forall q F G, forest_size q <= n -> forest_size q <= F -> forest_size q <= G ->
    bfs_queue F docUri q = levels G docUri q.
Proof.
  induction n as [|n IH]; intros q F G Hn HF HG.
  - destruct q as [|x q].
    + rewrite bfs_queue_nil. destruct G; reflexivity.
    + rewrite forest_size_levels in Hn. simpl in Hn. lia.
  - destruct q as [|x q'] eqn:Eq.
    + rewrite bfs_queue_nil. destruct G; reflexivity.
    + rewrite <- Eq in *. pose proof (forest_size_levels q) as Hs.
      assert (Hlen : 1 <= List.length q) by (rewrite Eq; simpl; lia).
      destruct G as [|g]; [lia|].
      replace (levels (S g) docUri q)
        with (map (convert docUri) q ++ levels g docUri (flat_map children q))
        by (rewrite Eq; reflexivity).
      rewrite <- (app_nil_r q) at 1.
      rewrite bfs_queue_level by lia. simpl. f_equal. apply IH; lia.
Qed.

Lemma bfs_queue_length (docUri : string) (fuel : nat) :
  forall q, forest_size q <= fuel -> List.length (bfs_queue fuel docUri q) = forest_size q.
Proof.
  induction fuel as [|f IH]; intros q Hq.
  - destruct q as [|x q]; [reflexivity|].
    rewrite forest_size_levels in Hq. simpl in Hq. lia.
  - destruct q as [|x q]; [reflexivity|]. simpl.
    assert (Hs : forest_size (x :: q) = S (forest_size (q ++ children x))).
    { rewrite forest_size_app. unfold forest_size at 1. simpl.
      fold (forest_size q). rewrite sym_size_children. lia. }
    rewrite IH by lia. lia.
Qed.

Lemma effectiveLimit_pos (limitParam : option Z) : 1 <= Z.to_nat (effectiveLimit limitParam).
Proof.
  destruct limitParam as [z|]; simpl; [|lia].
  destruct (Z.eqb z 0 || Z.ltb z 0)%bool eqn:E; [simpl; lia|].
  apply orb_false_iff in E as [E1 E2]. apply Z.eqb_neq in E1. apply Z.ltb_ge in E2. lia.
Qed.

(** [getDocumentSymbols] is the first [limit] symbols of the breadth-first
    flattening. *)
Lemma getDocumentSymbols_bfs (limit : nat) (docUri : string) (symbols : list ProviderSymbol) :
  1 <= limit ->
  getDocumentSymbols limit docUri symbols = firstn limit (bfs_flatten docUri symbols).
Proof.
  intros Hl. unfold getDocumentSymbols, bfs_flatten.
  rewrite bfs_loop_prefix by (simpl; lia). simpl. rewrite Nat.sub_0_r.
  f_equal. apply (bfs_queue_levels docUri (forest_size symbols)); lia.
Qed.

Lemma mergeResults_length (l w : list ListSymbolItem) (q : string) (limit : nat) :
  List.length (mergeResults l w q limit) <= limit.
Proof. unfold mergeResults. rewrite length_firstn. lia. Qed.

End SymbolsFacts.

Module SymbolsClaims.
Import Panel Symbols SymbolsFacts Samples.

(** C5: with an empty query and an active document, [listSymbols] returns
    the first [limit] symbols of the breadth-first flattening of the
    document's symbol tree, in that order, and sends no query to the
    workspace symbol provider; when the tree holds more than [limit]
    symbols, exactly [limit] items are returned. *)
Theorem empty_query_lists_bfs_prefix :
  forall (limitParam : option Z) (docUri : string) (symbols : list ProviderSymbol)
         (ws : string -> Provided (list SymbolInformation)) (tofp : string -> Filepath),
    let limit := Z.to_nat (effectiveLimit limitParam) in
    listSymbols "" limitParam (Some docUri) (Provides symbols) ws tofp =
      (map (fun s => symbolToItem s (tofp docUri)) (firstn limit (bfs_flatten docUri symbols)), [])
    /\ (limit < forest_size symbols ->
        List.length (fst (listSymbols "" limitParam (Some docUri) (Provides symbols) ws tofp))
        = limit).
Proof.
  intros limitParam docUri symbols ws tofp limit.
  assert (Hl : 1 <= limit) by apply effectiveLimit_pos.
  assert (E : listSymbols "" limitParam (Some docUri) (Provides symbols) ws tofp =
      (map (fun s => symbolToItem s (tofp docUri)) (firstn limit (bfs_flatten docUri symbols)), [])).
  { unfold listSymbols. fold limit. simpl.
    rewrite getDocumentSymbols_bfs by exact Hl.
    rewrite firstn_firstn, Nat.min_id. reflexivity. }
  split; [exact E|]. intros Hmore. rewrite E. simpl.
  rewrite length_map, length_firstn.
  unfold bfs_flatten.
  rewrite <- (bfs_queue_levels docUri (forest_size symbols) symbols
                (forest_size symbols) (forest_size symbols)) by lia.
  rewrite bfs_queue_length by lia. lia.
Qed.

Lemma empty_query_lists_bfs_prefix_witness :
  (listSymbols "" (Some 5%Z) (Some "file:///a.ts") (Provides sample_symbols8)
     no_workspace_symbols FilepathUri =
   (map (fun s => symbolToItem s (FilepathUri "file:///a.ts"))
        (firstn 5 (bfs_flatten "file:///a.ts" sample_symbols8)), [])) /\
  List.length (fst (listSymbols "" (Some 5%Z) (Some "file:///a.ts") (Provides sample_symbols8)
                      no_workspace_symbols FilepathUri)) = 5.
Proof.
  destruct (empty_query_lists_bfs_prefix (Some 5%Z) "file:///a.ts" sample_symbols8
              no_workspace_symbols FilepathUri) as [E H].
  split; [exact E|]. apply H. vm_compute. lia.
Defined.

(** C6 at a concrete input: the active file a.ts has [main] on lines 1-3 and
    the workspace provider reports [main] of b.ts on lines 1-3.  The two
    items differ in their filepath, yet [listSymbols "main"] returns only
    the one of a.ts: the deduplication key renders the [Filepath] object
    as "[object Object]". *)
Theorem merge_dedup_ignores_filepath :
  let items := fst (listSymbols "main" None (Some "file:///a.ts") (Provides sample_main_symbols)
                      sample_main_workspace FilepathUri) in
  items = [mkItem (FilepathUri "file:///a.ts") (mkLineRange 1 3) "main"] /\
  item_key (mkItem (FilepathUri "file:///a.ts") (mkLineRange 1 3) "main") =
  item_key (mkItem (FilepathUri "file:///b.ts") (mkLineRange 1 3) "main").
Proof. split; vm_compute; reflexivity. Qed.

(** C10: a missing, zero or negative [limit] is replaced by 20, so such a
    call returns at most 20 items (and not an empty list on that account). *)
Theorem missing_or_nonpositive_limit_defaults_to_20 :
  forall (limitParam : option Z),
    (limitParam = None \/ exists z, limitParam = Some z /\ (z <= 0)%Z) ->
    effectiveLimit limitParam = 20%Z /\
    forall (query : string) (docUri : option string) (docSyms : Provided (list ProviderSymbol))
           (ws : string -> Provided (list SymbolInformation)) (tofp : string -> Filepath),
      List.length (fst (listSymbols query limitParam docUri docSyms ws tofp)) <= 20.
Proof.
  intros limitParam Hp.
  assert (E : effectiveLimit limitParam = 20%Z).
  { destruct Hp as [->|[z [-> Hz]]]; [reflexivity|]. simpl.
    destruct (Z.eqb_spec z 0); [reflexivity|].
    replace (Z.ltb z 0) with true by (symmetry; apply Z.ltb_lt; lia). reflexivity. }
  split; [exact E|].
  intros query docUri docSyms ws tofp. unfold listSymbols.
  destruct docUri as [u|]; [|simpl; lia].
  rewrite E. change (Z.to_nat 20) with 20.
  destruct docSyms as [syms|]; [|simpl; lia].
  destruct (String.eqb query ""); cbn [fst].
  - rewrite length_map, length_firstn. lia.
  - apply mergeResults_length.
Qed.

Lemma missing_or_nonpositive_limit_defaults_to_20_witness :
  ((Some 0%Z = None \/ exists z, Some 0%Z = Some z /\ (z <= 0)%Z) /\
   effectiveLimit (Some 0%Z) = 20%Z) /\
  List.length (fst (listSymbols "" (Some 0%Z) (Some "file:///a.ts") (Provides sample_symbols8)
                      no_workspace_symbols FilepathUri)) = 8.
Proof.
  assert (H : Some 0%Z = None \/ exists z, Some 0%Z = Some z /\ (z <= 0)%Z)
    by (right; exists 0%Z; split; [reflexivity|lia]).
  split; [split; [exact H|]|].
  - apply (missing_or_nonpositive_limit_defaults_to_20 (Some 0%Z) H).
  - vm_compute. reflexivity.
Defined.

End SymbolsClaims.

(* ================================================================== *)
(** ** getChanges: proofs *)
(* ================================================================== *)

Module ChangesFacts.
Import Changes.
Local Open Scope Z_scope.

Lemma chars_nonneg (d : string) : 0 <= chars d.
Proof. unfold chars. lia. Qed.

Lemma sumZ_app (a b : list string) : sumZ (a ++ b) = sumZ a + sumZ b.
Proof. induction a as [|x a IH]; simpl; [reflexivity|]. rewrite IH. lia. Qed.

Lemma sumZ_nonneg (a : list string) : 0 <= sumZ a.
Proof. induction a as [|x a IH]; simpl; [lia|]. pose proof (chars_nonneg x). lia. Qed.

Lemma sumZ_firstn_le (a : list string) (k : nat) : sumZ (firstn k a) <= sumZ a.
Proof.
  rewrite <- (firstn_skipn k a) at 2. rewrite sumZ_app.
  pose proof (sumZ_nonneg (skipn k a)). lia.
Qed.

Lemma fold_chars_shift (items : list ChangeItem) :
  forall a b, fold_left (fun count item => count + chars (content item)) items (a + b) =
              a + fold_left (fun count item => count + chars (content item)) items b.
Proof.
  induction items as [|it items IH]; intros a b; simpl; [reflexivity|].
  rewrite <- Z.add_assoc. apply IH.
Qed.

Lemma total_chars_acc (items : list ChangeItem) (acc : Z) :
  fold_left (fun count item => count + chars (content item)) items acc = acc + total_chars items.
Proof.
  unfold total_chars. rewrite <- fold_chars_shift, Z.add_0_r. reflexivity.
Qed.

Lemma total_chars_app (a b : list ChangeItem) :
  total_chars (a ++ b) = total_chars a + total_chars b.
Proof. unfold total_chars at 1. rewrite fold_left_app. fold (total_chars a). apply total_chars_acc. Qed.

Lemma total_chars_map (stg : bool) (ds : list string) :
  total_chars (map (fun d => mkChange d stg) ds) = sumZ ds.
Proof.
  induction ds as [|d ds IH]; [reflexivity|].
  change (d :: ds) with ([d] ++ ds). rewrite map_app, total_chars_app, sumZ_app, IH.
  unfold total_chars. simpl. lia.
Qed.

(** Within one repository, a phase collects the longest prefix of the
    diff list that fits, and stops at the first diff that does not fit. *)
Lemma diffs_loop_prefix (l : Z) (stg : bool) (diffs : list string) :
  forall res count, count <= l ->
    exists k, (k <= List.length diffs)%nat /\
      diffs_loop (Some l) stg diffs res count =
        (res ++ map (fun d => mkChange d stg) (firstn k diffs), count + sumZ (firstn k diffs)) /\
      count + sumZ (firstn k diffs) <= l /\
      ((k < List.length diffs)%nat -> l < count + sumZ (firstn (S k) diffs)).
Proof.
  induction diffs as [|d rest IH]; intros res count Hc.
  - exists 0%nat. simpl. rewrite app_nil_r, Z.add_0_r. repeat split; [lia|lia|].
    intros H. simpl in H. lia.
  - simpl. destruct (Z.ltb_spec l (count + chars d)) as [Hlt|Hge].
    + exists 0%nat. simpl. rewrite app_nil_r, Z.add_0_r.
      repeat split; [lia|lia|]. intros _. lia.
    + destruct (IH (res ++ [mkChange d stg]) (count + chars d) Hge)
        as [k [Hk [E [Hb Hs]]]].
      exists (S k). rewrite E. simpl. rewrite <- app_assoc. simpl.
      repeat split.
      * lia.
      * f_equal. lia.
      * lia.
      * intros HSk. specialize (Hs ltac:(lia)). simpl in Hs. lia.
Qed.

Section Provider.
Variable Repository : Type.
Variable getDiff : Repository -> bool -> option (list string).

Lemma repos_loop_budget (l : Z) (stg : bool) (repos : list Repository) :
  forall res count, total_chars res = count -> count <= l ->
    total_chars (repos_loop Repository getDiff (Some l) stg repos res count) <= l.
Proof.
  induction repos as [|r repos IH]; intros res count Ht Hc; simpl; [lia|].
  destruct (getDiff r stg) as [diffs|]; [|apply IH; assumption].
  destruct (diffs_loop_prefix l stg diffs res count Hc) as [k [_ [E [Hb _]]]].
  rewrite E.
  assert (Ht' : total_chars (res ++ map (fun d => mkChange d stg) (firstn k diffs))
                = count + sumZ (firstn k diffs))
    by (rewrite total_chars_app, total_chars_map; lia).
  destruct (Z.leb l (count + sumZ (firstn k diffs))); [lia|].
  apply IH; assumption.
Qed.

Lemma getRepoChanges_budget (repos : list Repository) (stg : bool) (l : Z) :
  total_chars (getRepoChanges Repository getDiff repos stg (Some l)) <= Z.max 0 l.
Proof.
  unfold getRepoChanges. destruct (Z.leb_spec l 0) as [Hl|Hl].
  - unfold total_chars. simpl. lia.
  - pose proof (repos_loop_budget l stg repos [] 0 eq_refl ltac:(lia)). lia.
Qed.

(** When every diff of the phase fits with room to spare, the phase
    collects all of them, in repository and diff order. *)
Lemma repos_loop_all (l : Z) (stg : bool) (repos : list Repository) :
  forall res count, count + sumZ (all_diffs Repository getDiff repos stg) < l ->
    repos_loop Repository getDiff (Some l) stg repos res count =
    res ++ map (fun d => mkChange d stg) (all_diffs Repository getDiff repos stg).
Proof.
  induction repos as [|r repos IH]; intros res count Hlt; simpl; [rewrite app_nil_r; reflexivity|].
  unfold all_diffs in Hlt. simpl in Hlt. fold (all_diffs Repository getDiff repos stg) in Hlt.
  unfold all_diffs. simpl. fold (all_diffs Repository getDiff repos stg).
  rewrite sumZ_app in Hlt. pose proof (sumZ_nonneg (all_diffs Repository getDiff repos stg)).
  destruct (getDiff r stg) as [diffs|]; [|apply IH; simpl in Hlt; lia].
  pose proof (sumZ_nonneg diffs).
  destruct (diffs_loop_prefix l stg diffs res count ltac:(lia)) as [k [Hk [E [Hb Hs]]]].
  assert (Hfull : k = List.length diffs).
  { destruct (Nat.eq_dec k (List.length diffs)) as [|Hne]; [assumption|].
    specialize (Hs ltac:(lia)). pose proof (sumZ_firstn_le diffs (S k)). lia. }
  subst k. rewrite firstn_all in E. rewrite E.
  replace (Z.leb l (count + sumZ diffs)) with false by (symmetry; apply Z.leb_gt; lia).
  rewrite IH by lia. rewrite map_app, app_assoc. reflexivity.
Qed.

Lemma repos_loop_no_diffs (l : Z) (stg : bool) (repos : list Repository) :
  forall res count, all_diffs Repository getDiff repos stg = [] ->
    repos_loop Repository getDiff (Some l) stg repos res count = res.
Proof.
  induction repos as [|r repos IH]; intros res count Hnil; simpl; [reflexivity|].
  unfold all_diffs in Hnil. simpl in Hnil. fold (all_diffs Repository getDiff repos stg) in Hnil.
  destruct (getDiff r stg) as [diffs|]; [|apply IH; exact Hnil].
  apply app_eq_nil in Hnil as [-> Hnil]. simpl.
  destruct (Z.leb l count); [reflexivity|]. apply IH; exact Hnil.
Qed.

(** A phase whose only diff does not fit its budget collects nothing. *)
Lemma repos_loop_single_too_large (l : Z) (stg : bool) (d : string) (repos : list Repository) :
  all_diffs Repository getDiff repos stg = [d] -> l < chars d ->
    repos_loop Repository getDiff (Some l) stg repos [] 0 = [].
Proof.
  intros Hd Hl. induction repos as [|r repos IH]; simpl; [reflexivity|].
  unfold all_diffs in Hd. simpl in Hd. fold (all_diffs Repository getDiff repos stg) in Hd.
  destruct (getDiff r stg) as [diffs|]; [|apply IH; exact Hd].
  destruct diffs as [|d' rest].
  - simpl in Hd. simpl. destruct (Z.leb l 0); [reflexivity|]. apply IH; exact Hd.
  - simpl in Hd. inversion Hd as [[Hd' Hrest]]. subst d'.
    apply app_eq_nil in Hrest as [-> Hnil]. simpl.
    replace (Z.ltb l (chars d)) with true by (symmetry; apply Z.ltb_lt; lia).
    destruct (Z.leb l 0); [reflexivity|].
    apply repos_loop_no_diffs; exact Hnil.
Qed.

End Provider.

End ChangesFacts.

Module ChangesClaims.
Import Changes ChangesFacts Samples.
Local Open Scope Z_scope.

(** C4 (as amended): staged diffs are collected first under [maxChars],
    then unstaged diffs under [maxChars] minus the characters of the
    collected staged diffs; each phase stays within its budget and never
    truncates a diff; within one repository's diff list a phase takes the
    longest prefix that fits and stops at the first diff that does not fit,
    after which it moves on to the next repository unless the collected
    characters already reach the budget (a repository without diffs is
    passed over), so a diff of a later repository that fits is still
    collected; when all staged diffs fit with room to spare they are all
    collected, and a single unstaged diff larger than the remaining budget
    is not collected. *)
Theorem getChanges_budgeted_phases :
  forall (Repository : Type) (getDiff : Repository -> bool -> option (list string))
         (repos : list Repository) (m : Z),
    let stagedChanges := getRepoChanges Repository getDiff repos true (Some m) in
    let unstagedChanges :=
      getRepoChanges Repository getDiff repos false (Some (m - total_chars stagedChanges)) in
    getChanges Repository getDiff true (Some repos) (Some m) = stagedChanges ++ unstagedChanges /\
    total_chars stagedChanges <= Z.max 0 m /\
    total_chars unstagedChanges <= Z.max 0 (m - total_chars stagedChanges) /\
    (forall (stg : bool) (l : Z) (diffs : list string) (res : list ChangeItem) (count : Z),
       count <= l ->
       exists k, (k <= List.length diffs)%nat /\
         diffs_loop (Some l) stg diffs res count =
           (res ++ map (fun d => mkChange d stg) (firstn k diffs), count + sumZ (firstn k diffs)) /\
         count + sumZ (firstn k diffs) <= l /\
         ((k < List.length diffs)%nat -> l < count + sumZ (firstn (S k) diffs))) /\
    (sumZ (all_diffs Repository getDiff repos true) < m ->
       stagedChanges = map (fun d => mkChange d true) (all_diffs Repository getDiff repos true)) /\
    (forall d, all_diffs Repository getDiff repos false = [d] ->
       m - total_chars stagedChanges < chars d -> unstagedChanges = []) /\
    (0 < m -> stagedChanges = repos_loop Repository getDiff (Some m) true repos [] 0) /\
    (0 < m - total_chars stagedChanges ->
       unstagedChanges =
       repos_loop Repository getDiff (Some (m - total_chars stagedChanges)) false repos [] 0) /\
    (forall (stg : bool) (l : Z) (r : Repository) (rest : list Repository)
            (res : list ChangeItem) (count : Z),
       getDiff r stg = None ->
       repos_loop Repository getDiff (Some l) stg (r :: rest) res count =
       repos_loop Repository getDiff (Some l) stg rest res count) /\
    (forall (stg : bool) (l : Z) (r : Repository) (rest : list Repository)
            (diffs : list string) (res : list ChangeItem) (count : Z),
       count <= l -> getDiff r stg = Some diffs ->
       exists k, (k <= List.length diffs)%nat /\
         count + sumZ (firstn k diffs) <= l /\
         ((k < List.length diffs)%nat -> l < count + sumZ (firstn (S k) diffs)) /\
         (count + sumZ (firstn k diffs) < l ->
            repos_loop Repository getDiff (Some l) stg (r :: rest) res count =
            repos_loop Repository getDiff (Some l) stg rest
              (res ++ map (fun d => mkChange d stg) (firstn k diffs))
              (count + sumZ (firstn k diffs))) /\
         (count + sumZ (firstn k diffs) = l ->
            repos_loop Repository getDiff (Some l) stg (r :: rest) res count =
            res ++ map (fun d => mkChange d stg) (firstn k diffs))).
Proof.
  intros Repository getDiff repos m stagedChanges unstagedChanges.
  split; [reflexivity|]. split; [apply getRepoChanges_budget|].
  split; [apply getRepoChanges_budget|].
  split; [intros stg l; apply diffs_loop_prefix|].
  split; [|split; [|split; [|split; [|split]]]].
  - intros Hlt. pose proof (sumZ_nonneg (all_diffs Repository getDiff repos true)).
    unfold stagedChanges, getRepoChanges.
    replace (Z.leb m 0) with false by (symmetry; apply Z.leb_gt; lia).
    apply repos_loop_all. lia.
  - intros d Hd Hl. unfold unstagedChanges, getRepoChanges.
    destruct (Z.leb (m - total_chars stagedChanges) 0); [reflexivity|].
    eapply repos_loop_single_too_large; eassumption.
  - intros Hm. unfold stagedChanges, getRepoChanges.
    replace (Z.leb m 0) with false by (symmetry; apply Z.leb_gt; lia). reflexivity.
  - intros Hm. unfold unstagedChanges, getRepoChanges.
    replace (Z.leb (m - total_chars stagedChanges) 0) with false
      by (symmetry; apply Z.leb_gt; lia). reflexivity.
  - intros stg l r rest res count Hg. simpl. rewrite Hg. reflexivity.
  - intros stg l r rest diffs res count Hc Hg.
    destruct (diffs_loop_prefix l stg diffs res count Hc) as [k [Hk [E [Hb Hs]]]].
    exists k. split; [exact Hk|]. split; [exact Hb|]. split; [exact Hs|].
    split.
    + intros Hlt. simpl. rewrite Hg, E.
      replace (Z.leb l (count + sumZ (firstn k diffs))) with false
        by (symmetry; apply Z.leb_gt; lia). reflexivity.
    + intros Heq. simpl. rewrite Hg, E.
      replace (Z.leb l (count + sumZ (firstn k diffs))) with true
        by (symmetry; apply Z.leb_le; lia). reflexivity.
Qed.

Lemma getChanges_budgeted_phases_witness :
  getChanges nat one_repo_diffs true (Some [0%nat]) (Some 100) =
    [mkChange (diff_of_length 30) true; mkChange (diff_of_length 50) true] /\
  (sumZ (all_diffs nat one_repo_diffs [0%nat] true) < 100 ->
   getRepoChanges nat one_repo_diffs [0%nat] true (Some 100) =
   map (fun d => mkChange d true) (all_diffs nat one_repo_diffs [0%nat] true)) /\
  getRepoChanges nat two_repo_diffs [0%nat; 1%nat] true (Some 100) =
    repos_loop nat two_repo_diffs (Some 100) true [1%nat]
      [mkChange (diff_of_length 60) true] 60.
Proof.
  destruct (getChanges_budgeted_phases nat one_repo_diffs [0%nat] 100)
    as [E [_ [_ [_ [Hall [Hsingle _]]]]]].
  split; [|split; [exact Hall|]].
  - rewrite E. rewrite (Hsingle (diff_of_length 50)) by (vm_compute; reflexivity).
    rewrite app_nil_r, Hall by (vm_compute; reflexivity).
    reflexivity.
  - destruct (getChanges_budgeted_phases nat two_repo_diffs [0%nat; 1%nat] 100)
      as [_ [_ [_ [_ [_ [_ [Hstaged [_ [_ Hstep]]]]]]]]].
    rewrite Hstaged by lia.
    destruct (Hstep true 100 0%nat [1%nat] [diff_of_length 60; diff_of_length 50] [] 0
                ltac:(lia) eq_refl) as [k [Hk [Hb [Hs [Hcont _]]]]].
    assert (S1 : sumZ (firstn 1 [diff_of_length 60; diff_of_length 50]) = 60)
      by (vm_compute; reflexivity).
    assert (S2 : sumZ (firstn 2 [diff_of_length 60; diff_of_length 50]) = 110)
      by (vm_compute; reflexivity).
    destruct k as [|[|[|k]]]; cbn [List.length] in Hk.
    + specialize (Hs ltac:(cbn; lia)). rewrite S1 in Hs. lia.
    + rewrite Hcont by (rewrite S1; lia). rewrite S1. reflexivity.
    + rewrite S2 in Hb. lia.
    + lia.
Defined.

(** C4 refuted: with [maxChars = 100], the staged diff of 50 characters of
    repository 0 does not fit after the one of 60, yet the staged phase goes
    on to repository 1 and collects its diff of 10 characters. *)
Lemma getChanges_skips_ahead_counterexample :
  getChanges nat two_repo_diffs true (Some [0%nat; 1%nat]) (Some 100) =
    [mkChange (diff_of_length 60) true; mkChange (diff_of_length 10) true].
Proof. vm_compute. reflexivity. Qed.

End ChangesClaims.

(* ================================================================== *)
(** ** Session state: proofs *)
(* ================================================================== *)

Module SessionFacts.
Import Session.

Lemma map_get_set_other (m : SessionMap) (k k' : string) (v : JsObject) :
  k <> k' -> map_get (map_set m k v) k' = map_get m k'.
Proof.
  intros Hne. induction m as [|[k0 v0] m IH]; simpl.
  - unfold map_get. simpl. destruct (String.eqb_spec k k'); [contradiction|reflexivity].
  - destruct (String.eqb_spec k0 k) as [->|Hk0].
    + unfold map_get. simpl. destruct (String.eqb_spec k k'); [contradiction|reflexivity].
    + unfold map_get in *. simpl. destruct (String.eqb k0 k'); [reflexivity|exact IH].
Qed.

End SessionFacts.

Module SessionClaims.
Import Session SessionFacts.

(** C7 at a concrete input: after [storeSessionState({a: 1, b: 2})],
    [fetchSessionState(["a"])] is [{a: 1}], but
    [fetchSessionState(["a", "toString"])] also carries [toString], which
    the stored state does not hold: [key in sessionState] finds it on
    [Object.prototype]. *)
Theorem fetch_keys_includes_inherited_member :
  let m := storeSessionState (Some "http://localhost:8080") [] [("a", JNum 1); ("b", JNum 2)] in
  fetchSessionState (Some "http://localhost:8080") m (Some ["a"]) = [("a", JNum 1)] /\
  map_get m "http://localhost:8080" = Some [("a", JNum 1); ("b", JNum 2)] /\
  fetchSessionState (Some "http://localhost:8080") m (Some ["a"; "toString"]) =
    [("a", JNum 1); ("toString", Inherited "toString")].
Proof. repeat split; vm_compute; reflexivity. Qed.

(** C8: a store under endpoint A leaves the partition of any endpoint B with
    a different key unchanged, so every fetch under B returns what it
    returned before the store: a key stored under A shows up under B only if
    it showed up there already. *)
Theorem store_isolated_per_endpoint :
  forall (eA eB : option string) (m : SessionMap) (state : JsObject)
         (keys : option (list string)),
    sessionStateKey eA <> sessionStateKey eB ->
    map_get (storeSessionState eA m state) (sessionStateKey eB) = map_get m (sessionStateKey eB) /\
    fetchSessionState eB (storeSessionState eA m state) keys = fetchSessionState eB m keys /\
    (forall k, In k (map fst state) ->
       own (fetchSessionState eB (storeSessionState eA m state) keys) k <> None ->
       own (fetchSessionState eB m keys) k <> None).
Proof.
  intros eA eB m state keys Hne.
  assert (E : map_get (storeSessionState eA m state) (sessionStateKey eB) =
              map_get m (sessionStateKey eB)).
  { unfold storeSessionState. apply map_get_set_other. exact Hne. }
  assert (F : fetchSessionState eB (storeSessionState eA m state) keys =
              fetchSessionState eB m keys).
  { unfold fetchSessionState at 1. rewrite E. reflexivity. }
  split; [exact E|]. split; [exact F|].
  intros k _ H. rewrite <- F. exact H.
Qed.

Lemma store_isolated_per_endpoint_witness :
  sessionStateKey (Some "http://a:8080") <> sessionStateKey (Some "http://b:8080") /\
  fetchSessionState (Some "http://b:8080")
    (storeSessionState (Some "http://a:8080") [] [("a", JNum 1)]) (Some ["a"]) = [].
Proof.
  assert (Hne : sessionStateKey (Some "http://a:8080") <> sessionStateKey (Some "http://b:8080"))
    by (simpl; discriminate).
  split; [exact Hne|].
  destruct (store_isolated_per_endpoint (Some "http://a:8080") (Some "http://b:8080") []
              [("a", JNum 1)] (Some ["a"]) Hne) as [_ [F _]].
  rewrite F. reflexivity.
Defined.

End SessionClaims.

(* ================================================================== *)
(** ** Status check and panel loading: proofs *)
(* ================================================================== *)

Module LifecycleFacts.
Import Capability Lifecycle.

Lemma loadChatPanel_webview (us ua : string) (st : LState) :
  webview (loadChatPanel us ua st) = webview st.
Proof. unfold loadChatPanel. destruct (negb (webview st)); reflexivity. Qed.

Lemma loadErrorPage_webview (us ua m : string) (st : LState) :
  webview (loadErrorPage us ua m st) = webview st.
Proof. unfold loadErrorPage. destruct (negb (webview st)); reflexivity. Qed.

Lemma loadChatPanel_config (us ua : string) (st : LState) :
  currentConfig (loadChatPanel us ua st) = currentConfig st.
Proof. unfold loadChatPanel. destruct (negb (webview st)); reflexivity. Qed.

Lemma loadErrorPage_config (us ua m : string) (st : LState) :
  currentConfig (loadErrorPage us ua m st) = currentConfig st.
Proof. unfold loadErrorPage. destruct (negb (webview st)); reflexivity. Qed.

Lemma clear_timer_nth_other (id : nat) (ts : list bool) :
  forall k, k <> id -> nth k (clear_timer id ts) false = nth k ts false.
Proof.
  revert id. induction ts as [|b r IH]; intros id k Hne; [destruct id; reflexivity|].
  destruct id as [|id], k as [|k]; simpl; try reflexivity; [contradiction|].
  apply IH. lia.
Qed.

Lemma clear_timer_nth_same (id : nat) (ts : list bool) :
  nth id (clear_timer id ts) false = false.
Proof.
  revert id. induction ts as [|b r IH]; intros id; [destruct id; reflexivity|].
  destruct id as [|id]; simpl; [reflexivity|apply IH].
Qed.

Lemma clear_timer_length (id : nat) (ts : list bool) :
  List.length (clear_timer id ts) = List.length ts.
Proof.
  revert id. induction ts as [|b r IH]; intros id; [destruct id; reflexivity|].
  destruct id; simpl; [reflexivity|now rewrite IH].
Qed.

Lemma MIN_VERSION_parse : parse_semver MIN_VERSION = Some (0, 27, 0).
Proof. reflexivity. Qed.

Lemma check_healthy (us ua : string) (coerce : string -> option (nat * nat * nat))
    (si : option StatusInfo) (c : ServerConfig) (st : LState) :
  checkStatusInfo coerce si = None ->
  checkStatusAndLoadContent us ua coerce si (Some c) st =
    match currentConfig st with
    | None => loadChatPanel us ua (set_config (Some c) st)
    | Some cur =>
        if negb (String.eqb (endpoint cur) (endpoint c)) || negb (String.eqb (token cur) (token c))
        then loadChatPanel us ua (set_config (Some c) st) else st
    end.
Proof. intros H. unfold checkStatusAndLoadContent. rewrite H. destruct (currentConfig st); reflexivity. Qed.

Lemma check_failing (us ua : string) (coerce : string -> option (nat * nat * nat))
    (si : option StatusInfo) (cfg : option ServerConfig) (st : LState) :
  checkStatusInfo coerce si <> None \/ cfg = None ->
  exists m, checkStatusAndLoadContent us ua coerce si cfg st = loadErrorPage us ua m (set_config None st).
Proof.
  intros H. unfold checkStatusAndLoadContent.
  destruct (checkStatusInfo coerce si) as [e|]; [eauto|].
  destruct H as [H| ->]; [contradiction|eauto].
Qed.

Lemma init_client (h : ServerApiList) (st : LState) :
  client (cap (initChatPanel h st)) = Some h.
Proof. unfold initChatPanel, Capability.initChatPanel. cbn. rewrite CapabilityFacts.flush_log. reflexivity. Qed.

Lemma changed_refl (c : ServerConfig) :
  (negb (String.eqb (endpoint c) (endpoint c)) || negb (String.eqb (token c) (token c)))%bool = false.
Proof. rewrite !String.eqb_refl. reflexivity. Qed.

End LifecycleFacts.

Module LifecycleClaims.
Import Capability Lifecycle LifecycleFacts.

(** The status check accepts the server (no error page) exactly when the
    status is not connecting, unauthorized or disconnected, a health
    record is present with a truthy [webserver] and [chat_model], and a
    truthy [version] that coerces to a version is at least 0.27.0; a
    version that is not a string, nor an object with a string
    [git_describe], or that does not coerce, is accepted. *)
Theorem checkStatusInfo_accepts_iff :
  forall (coerce : string -> option (nat * nat * nat)) (si : option StatusInfo),
    checkStatusInfo coerce si = None <->
    exists s health,
      si = Some s /\
      status s <> "connecting" /\ status s <> "unauthorized" /\ status s <> "disconnected" /\
      serverHealth s = Some health /\
      truthy (hget health "webserver") = true /\ truthy (hget health "chat_model") = true /\
      (truthy (hget health "version") = true ->
       forall v, health_version coerce (hget health "version") = Some v ->
                 version_ge v (0, 27, 0) = true).
Proof.
  intros coerce si. split.
  - intros H. destruct si as [s|]; [|discriminate]. unfold checkStatusInfo in H.
    destruct (String.eqb_spec (status s) "connecting"); [discriminate|].
    destruct (String.eqb_spec (status s) "unauthorized"); [discriminate|].
    destruct (String.eqb_spec (status s) "disconnected"); [discriminate|].
    destruct (serverHealth s) as [health|] eqn:Eh; [|discriminate].
    destruct (truthy (hget health "webserver")) eqn:Ew; [|discriminate].
    destruct (truthy (hget health "chat_model")) eqn:Ec; [|discriminate].
    exists s, health.
    split; [reflexivity|]. split; [assumption|]. split; [assumption|].
    split; [assumption|]. split; [exact Eh|]. split; [exact Ew|]. split; [exact Ec|].
    intros Ev v Hv. cbn [negb orb] in H. rewrite Ev, Hv in H.
    unfold semver_lt in H. rewrite MIN_VERSION_parse in H.
    destruct (version_ge v (0, 27, 0)); [reflexivity|discriminate H].
  - intros [s [health [-> [H1 [H2 [H3 [Eh [Ew [Ec Hv]]]]]]]]].
    unfold checkStatusInfo.
    destruct (String.eqb_spec (status s) "connecting"); [contradiction|].
    destruct (String.eqb_spec (status s) "unauthorized"); [contradiction|].
    destruct (String.eqb_spec (status s) "disconnected"); [contradiction|].
    rewrite Eh, Ew, Ec. cbn [negb orb].
    destruct (truthy (hget health "version")) eqn:Ev; [|reflexivity].
    destruct (health_version coerce (hget health "version")) as [v|] eqn:Ehv; [|reflexivity].
    unfold semver_lt. rewrite MIN_VERSION_parse, (Hv eq_refl v eq_refl). reflexivity.
Qed.


(** A status notification that passes the check with a server
    configuration, repeated with the same status and configuration, does
    nothing: the panel is loaded at most once for a given endpoint and
    token. *)
Theorem healthy_status_recheck_is_noop :
  forall (us ua : string) (coerce : string -> option (nat * nat * nat))
         (si : option StatusInfo) (c : ServerConfig) (st : LState),
    checkStatusInfo coerce si = None ->
    let st1 := checkStatusAndLoadContent us ua coerce si (Some c) st in
    checkStatusAndLoadContent us ua coerce si (Some c) st1 = st1.
Proof.
  intros us ua coerce si c st H st1.
  assert (Hc : currentConfig st1 = Some c \/ st1 = st /\ exists cur, currentConfig st = Some cur /\
                 String.eqb (endpoint cur) (endpoint c) = true /\ String.eqb (token cur) (token c) = true).
  { unfold st1. rewrite check_healthy by exact H.
    destruct (currentConfig st) as [cur|].
    - destruct (String.eqb (endpoint cur) (endpoint c)) eqn:E1,
               (String.eqb (token cur) (token c)) eqn:E2; cbn [negb orb];
        try (left; rewrite loadChatPanel_config; reflexivity).
      right. split; [reflexivity|]. exists cur. auto.
    - left. rewrite loadChatPanel_config. reflexivity. }
  rewrite check_healthy by exact H.
  destruct Hc as [Hc|[Heq [cur [Hcur [E1 E2]]]]].
  - rewrite Hc, changed_refl. reflexivity.
  - rewrite Heq, Hcur, E1, E2. reflexivity.
Qed.

(** A status notification that fails the check (or comes without a server
    configuration) loads the error page every time: it clears the stored
    configuration and the client handle, counts a reload and emits
    "error".  The next notification that passes the check then reloads the
    chat panel even when endpoint and token are unchanged. *)
Theorem failing_status_reloads_error_page_then_recovers :
  forall (us ua : string) (coerce : string -> option (nat * nat * nat))
         (siErr : option StatusInfo) (cfgErr : option ServerConfig)
         (si : option StatusInfo) (c : ServerConfig) (st : LState),
    webview st = true ->
    checkStatusInfo coerce siErr <> None \/ cfgErr = None ->
    checkStatusInfo coerce si = None ->
    let st1 := checkStatusAndLoadContent us ua coerce siErr cfgErr st in
    let st2 := checkStatusAndLoadContent us ua coerce si (Some c) st1 in
    html st1 = Some (mkHtml "error.html"
                       [("{{RELOAD_COUNT}}", Str.show_nat (S (reloadCount st)));
                        ("{{URI_STYLESHEET}}", us); ("{{URI_AVATAR_TABBY}}", ua);
                        ("{{ERROR_MESSAGE}}", match checkStatusInfo coerce siErr with
                                              | Some e => e
                                              | None => "Cannot get the server configuration."
                                              end)]) /\
    currentConfig st1 = None /\ client (cap st1) = None /\
    reloadCount st1 = S (reloadCount st) /\ statusEvents st1 = statusEvents st ++ ["error"] /\
    currentConfig st2 = Some c /\ client (cap st2) = None /\
    reloadCount st2 = S (S (reloadCount st)) /\
    statusEvents st2 = statusEvents st ++ ["error"; "loading"] /\
    html st2 = Some (mkHtml "main.html"
                       [("{{RELOAD_COUNT}}", Str.show_nat (S (S (reloadCount st))));
                        ("{{SERVER_ENDPOINT}}", endpoint c);
                        ("{{URI_STYLESHEET}}", us); ("{{URI_AVATAR_TABBY}}", ua)]).
Proof.
  intros us ua coerce siErr cfgErr si c st Hw Herr Hok st1 st2.
  set (m := match checkStatusInfo coerce siErr with
            | Some e => e
            | None => "Cannot get the server configuration."
            end).
  assert (E1 : st1 = mkLState (webview st) (set_client None (cap st)) None (S (reloadCount st))
                 (Some (mkHtml "error.html"
                          [("{{RELOAD_COUNT}}", Str.show_nat (S (reloadCount st)));
                           ("{{URI_STYLESHEET}}", us); ("{{URI_AVATAR_TABBY}}", ua);
                           ("{{ERROR_MESSAGE}}", m)]))
                 (statusEvents st ++ ["error"]) (timers st) (createClientTimeout st) (posted st)).
  { unfold st1, m, checkStatusAndLoadContent.
    destruct (checkStatusInfo coerce siErr) as [e|].
    - unfold loadErrorPage, set_config. cbn [webview]. rewrite Hw. reflexivity.
    - destruct Herr as [Herr| ->]; [contradiction|].
      unfold loadErrorPage, set_config. cbn [webview]. rewrite Hw. reflexivity. }
  split; [rewrite E1; reflexivity|].
  unfold st2. rewrite check_healthy by exact Hok. rewrite E1. cbn [currentConfig].
  unfold loadChatPanel, set_config. cbn. rewrite Hw. cbn.
  rewrite <- app_assoc. repeat split; reflexivity.
Qed.

(** A configuration change that keeps endpoint and token (for instance in
    the request headers) does not reload the panel, and the panel keeps
    the configuration it had. *)
Theorem config_change_outside_endpoint_token_ignored :
  forall (us ua : string) (coerce : string -> option (nat * nat * nat))
         (si : option StatusInfo) (c c' : ServerConfig) (st : LState),
    checkStatusInfo coerce si = None ->
    currentConfig st = Some c ->
    endpoint c' = endpoint c -> token c' = token c ->
    checkStatusAndLoadContent us ua coerce si (Some c') st = st.
Proof.
  intros us ua coerce si c c' st Hok Hc He Ht.
  rewrite check_healthy by exact Hok. rewrite Hc, He, Ht, changed_refl. reflexivity.
Qed.

(** When the chat iframe reports loading twice before the client is
    created, only the second timer is kept in [createClientTimeout];
    [initChatPanel] clears that one, and the first timer still fires: with
    a non-empty endpoint it replaces the ready panel by the error page and
    drops the client handle. *)
Theorem second_iframe_load_leaves_first_timer_live :
  forall (us ua : string) (coerce : string -> option (nat * nat * nat))
         (h : ServerApiList) (si : option StatusInfo) (cfg : option ServerConfig) (st : LState),
    webview st = true ->
    endpoint_or_empty (currentConfig st) <> "" ->
    let n := List.length (timers st) in
    let st1 := initChatPanel h (chatIframeLoaded (chatIframeLoaded st)) in
    let st2 := fireTimer us ua coerce n si cfg st1 in
    client (cap st1) = Some h /\ createClientTimeout st1 = None /\
    nth n (timers st1) false = true /\
    client (cap st2) = None /\
    statusEvents st2 = statusEvents st1 ++ ["error"] /\
    html st2 = Some (mkHtml "error.html"
                       [("{{RELOAD_COUNT}}", Str.show_nat (S (reloadCount st)));
                        ("{{URI_STYLESHEET}}", us); ("{{URI_AVATAR_TABBY}}", ua);
                        ("{{ERROR_MESSAGE}}", msg_load_failed (endpoint_or_empty (currentConfig st)))]).
Proof.
  intros us ua coerce h si cfg st Hw Hep n st1 st2.
  assert (Ht : timers st1 = clear_timer (List.length (timers st ++ [true]))
                             ((timers st ++ [true]) ++ [true])) by reflexivity.
  assert (Hn : nth n (timers st1) false = true).
  { rewrite Ht, clear_timer_nth_other.
    - rewrite <- app_assoc, app_nth2 by (unfold n; lia).
      unfold n. rewrite Nat.sub_diag. reflexivity.
    - rewrite length_app. cbn. unfold n. lia. }
  split; [apply init_client|]. split; [reflexivity|]. split; [exact Hn|].
  unfold st2, fireTimer. rewrite Hn. unfold timeoutHandler. cbn [currentConfig].
  replace (currentConfig st1) with (currentConfig st) by reflexivity.
  destruct (String.eqb_spec (endpoint_or_empty (currentConfig st)) "") as [E|_]; [contradiction|].
  unfold loadErrorPage. cbn [webview]. replace (webview st1) with (webview st) by reflexivity.
  rewrite Hw. cbn. repeat split; reflexivity.
Qed.

(** With a single iframe load before the client is created,
    [initChatPanel] clears the timer: when it comes due nothing happens. *)
Theorem init_clears_iframe_timer :
  forall (us ua : string) (coerce : string -> option (nat * nat * nat))
         (h : ServerApiList) (si : option StatusInfo) (cfg : option ServerConfig) (st : LState),
    let st1 := initChatPanel h (chatIframeLoaded st) in
    fireTimer us ua coerce (List.length (timers st)) si cfg st1 = st1.
Proof.
  intros us ua coerce h si cfg st st1.
  unfold fireTimer. replace (nth (List.length (timers st)) (timers st1) false) with false.
  - reflexivity.
  - symmetry. unfold st1, initChatPanel, chatIframeLoaded. cbn. apply clear_timer_nth_same.
Qed.

(** After [dispose], the tracked timer no longer fires, and no timer that
    fires changes the page, the reload count, the status events or the
    (absent) client handle. *)
Theorem dispose_then_timer_changes_no_page :
  forall (us ua : string) (coerce : string -> option (nat * nat * nat))
         (id : nat) (si : option StatusInfo) (cfg : option ServerConfig) (st : LState),
    let st1 := dispose st in
    let st2 := fireTimer us ua coerce id si cfg st1 in
    (forall t, createClientTimeout st = Some t -> nth t (timers st1) false = false) /\
    webview st2 = false /\ html st2 = html st /\ reloadCount st2 = reloadCount st /\
    statusEvents st2 = statusEvents st /\ client (cap st2) = None.
Proof.
  intros us ua coerce id si cfg st st1 st2. split.
  { intros t Ht. unfold st1, dispose. rewrite Ht. apply clear_timer_nth_same. }
  unfold st2, fireTimer. destruct (nth id (timers st1) false); [|repeat split; reflexivity].
  unfold timeoutHandler. cbn [currentConfig]. replace (currentConfig st1) with (@None ServerConfig) by reflexivity.
  cbn [endpoint_or_empty String.eqb]. unfold checkStatusAndLoadContent.
  destruct (checkStatusInfo coerce si); [|destruct cfg as [c|]];
    [| | cbn [currentConfig]]; unfold loadErrorPage, loadChatPanel, set_config; cbn;
    repeat split; reflexivity.
Qed.

(** Examples for the lifecycle theorems. *)
Lemma healthy_status_recheck_is_noop_witness :
  checkStatusInfo LifecycleSamples.sample_coerce LifecycleSamples.healthy_status = None /\
  let st1 := checkStatusAndLoadContent "style.css" "tabby.png" LifecycleSamples.sample_coerce
               LifecycleSamples.healthy_status (Some LifecycleSamples.local_server)
               (LifecycleSamples.fresh_panel None) in
  checkStatusAndLoadContent "style.css" "tabby.png" LifecycleSamples.sample_coerce
    LifecycleSamples.healthy_status (Some LifecycleSamples.local_server) st1 = st1.
Proof.
  split; [vm_compute; reflexivity|].
  apply healthy_status_recheck_is_noop. vm_compute. reflexivity.
Defined.

Lemma failing_status_reloads_error_page_then_recovers_witness :
  webview (LifecycleSamples.fresh_panel (Some LifecycleSamples.local_server)) = true /\
  html (checkStatusAndLoadContent "style.css" "tabby.png" LifecycleSamples.sample_coerce
          LifecycleSamples.disconnected_status (Some LifecycleSamples.local_server)
          (LifecycleSamples.fresh_panel (Some LifecycleSamples.local_server))) =
    Some (mkHtml "error.html"
            [("{{RELOAD_COUNT}}", Str.show_nat 1); ("{{URI_STYLESHEET}}", "style.css");
             ("{{URI_AVATAR_TABBY}}", "tabby.png");
             ("{{ERROR_MESSAGE}}", match checkStatusInfo LifecycleSamples.sample_coerce
                                           LifecycleSamples.disconnected_status with
                                   | Some e => e
                                   | None => "Cannot get the server configuration."
                                   end)]) /\
  currentConfig (checkStatusAndLoadContent "style.css" "tabby.png" LifecycleSamples.sample_coerce
                   LifecycleSamples.disconnected_status (Some LifecycleSamples.local_server)
                   (LifecycleSamples.fresh_panel (Some LifecycleSamples.local_server))) = None.
Proof.
  destruct (failing_status_reloads_error_page_then_recovers "style.css" "tabby.png"
           LifecycleSamples.sample_coerce LifecycleSamples.disconnected_status
           (Some LifecycleSamples.local_server) LifecycleSamples.healthy_status
           LifecycleSamples.local_server (LifecycleSamples.fresh_panel (Some LifecycleSamples.local_server)))
    as [Hh [Hc _]].
  - reflexivity.
  - left. vm_compute. discriminate.
  - vm_compute. reflexivity.
  - split; [reflexivity|]. split; [exact Hh|exact Hc].
Defined.

Lemma config_change_outside_endpoint_token_ignored_witness :
  checkStatusAndLoadContent "style.css" "tabby.png" LifecycleSamples.sample_coerce
    LifecycleSamples.healthy_status (Some LifecycleSamples.local_server_with_header)
    (LifecycleSamples.fresh_panel (Some LifecycleSamples.local_server)) =
  LifecycleSamples.fresh_panel (Some LifecycleSamples.local_server).
Proof.
  apply (config_change_outside_endpoint_token_ignored "style.css" "tabby.png"
           LifecycleSamples.sample_coerce LifecycleSamples.healthy_status
           LifecycleSamples.local_server LifecycleSamples.local_server_with_header);
    [vm_compute; reflexivity | reflexivity | reflexivity | reflexivity].
Defined.

Lemma second_iframe_load_leaves_first_timer_live_witness :
  client (cap (fireTimer "style.css" "tabby.png" LifecycleSamples.sample_coerce 0
                 LifecycleSamples.healthy_status (Some LifecycleSamples.local_server)
                 (initChatPanel Samples.sample_handle
                    (chatIframeLoaded (chatIframeLoaded
                       (LifecycleSamples.fresh_panel (Some LifecycleSamples.local_server))))))) = None.
Proof.
  apply (second_iframe_load_leaves_first_timer_live "style.css" "tabby.png"
           LifecycleSamples.sample_coerce Samples.sample_handle LifecycleSamples.healthy_status
           (Some LifecycleSamples.local_server)
           (LifecycleSamples.fresh_panel (Some LifecycleSamples.local_server))).
  - reflexivity.
  - vm_compute. discriminate.
Defined.

Lemma checkStatusInfo_accepts_iff_witness :
  checkStatusInfo LifecycleSamples.sample_coerce LifecycleSamples.healthy_status = None.
Proof.
  apply (proj2 (checkStatusInfo_accepts_iff LifecycleSamples.sample_coerce LifecycleSamples.healthy_status)).
  eexists; eexists. split; [reflexivity|].
  split; [discriminate|]. split; [discriminate|]. split; [discriminate|].
  split; [reflexivity|]. split; [reflexivity|]. split; [reflexivity|].
  intros _ v Hv. vm_compute in Hv. injection Hv as <-. reflexivity.
Defined.

Lemma dispose_then_timer_changes_no_page_witness :
  let st := chatIframeLoaded (LifecycleSamples.fresh_panel (Some LifecycleSamples.local_server)) in
  nth 0 (timers (dispose st)) false = false /\
  html (fireTimer "style.css" "tabby.png" LifecycleSamples.sample_coerce 0
          LifecycleSamples.healthy_status (Some LifecycleSamples.local_server) (dispose st)) = html st.
Proof.
  intros st.
  destruct (dispose_then_timer_changes_no_page "style.css" "tabby.png" LifecycleSamples.sample_coerce 0
              LifecycleSamples.healthy_status (Some LifecycleSamples.local_server) st)
    as (H1 & _ & H2 & _).
  split; [exact (H1 0 eq_refl)|exact H2].
Defined.

End LifecycleClaims.

(* ================================================================== *)
(** ** Callbacks: facts *)
(* ================================================================== *)

Module CallbacksFacts.
Import Lifecycle Callbacks.

Lemma cb_get_set_same (m : list (string * nat)) (k : string) (v : nat) :
  cb_get (cb_set m k v) k = Some v.
Proof.
  induction m as [|[k' v'] rest IH]; unfold cb_get in *; cbn.
  - rewrite String.eqb_refl. reflexivity.
  - destruct (String.eqb k' k) eqn:E; cbn.
    + rewrite String.eqb_refl. reflexivity.
    + rewrite E. exact IH.
Qed.

Lemma cb_get_set_other (m : list (string * nat)) (k j : string) (v : nat) :
  j <> k -> cb_get (cb_set m k v) j = cb_get m j.
Proof.
  intros Hne. induction m as [|[k' v'] rest IH]; unfold cb_get in *; cbn.
  - destruct (String.eqb_spec k j); [congruence|reflexivity].
  - destruct (String.eqb k' k) eqn:E; cbn.
    + apply String.eqb_eq in E. subst k'.
      destruct (String.eqb_spec k j); [congruence|reflexivity].
    + destruct (String.eqb k' j); [reflexivity|exact IH].
Qed.

Lemma cb_get_delete_same (m : list (string * nat)) (k : string) :
  cb_get (cb_delete m k) k = None.
Proof.
  induction m as [|[k' v'] rest IH]; unfold cb_get, cb_delete in *; cbn; [reflexivity|].
  destruct (String.eqb k' k) eqn:E; cbn; [exact IH|]. rewrite E. exact IH.
Qed.

Lemma cb_get_delete_other (m : list (string * nat)) (k j : string) :
  j <> k -> cb_get (cb_delete m k) j = cb_get m j.
Proof.
  intros Hne. induction m as [|[k' v'] rest IH]; unfold cb_get, cb_delete in *; cbn; [reflexivity|].
  destruct (String.eqb k' k) eqn:E; cbn.
  - apply String.eqb_eq in E. subst k'.
    destruct (String.eqb_spec k j); [congruence|exact IH].
  - destruct (String.eqb k' j); [reflexivity|exact IH].
Qed.

Lemma cb_delete_absent (m : list (string * nat)) (k : string) :
  cb_get m k = None -> cb_delete m k = m.
Proof.
  induction m as [|[k' v'] rest IH]; unfold cb_get, cb_delete in *; cbn; [reflexivity|].
  destruct (String.eqb k' k); cbn; [discriminate|]. intros H. f_equal. exact (IH H).
Qed.

Lemma splice_nth (ps : list (option HVal)) :
  forall n v j,
    nth j (firstn n ps ++ match skipn n ps with [] => [] | _ :: r => Some v :: r end) None =
    if Nat.eqb j n then (if Nat.ltb n (List.length ps) then Some v else None) else nth j ps None.
Proof.
  induction ps as [|p ps IH]; intros n v j.
  - destruct n, j; cbn; try destruct (Nat.eqb _ _); reflexivity.
  - destruct n as [|n]; cbn.
    + destruct j; reflexivity.
    + destruct j as [|j]; [reflexivity|]. rewrite IH. cbn. reflexivity.
Qed.

Lemma jsCallback_absent (id : string) (args : list HVal) (st : CbState) :
  cb_get (pendingCallbacks st) id = None -> jsCallback id args st = st.
Proof.
  intros H. unfold jsCallback. rewrite H, cb_delete_absent by exact H.
  destruct st; reflexivity.
Qed.

End CallbacksFacts.

Module CallbacksClaims.
Import Lifecycle Callbacks CallbacksFacts.

(** [isFocused] on a panel with a webview registers its callback under the
    fresh id, posts one [checkFocused] request with that id and leaves its
    promise pending.  The answering [jsCallback] resolves it with the first
    argument (undefined when there is none) and removes the id, touching no
    other promise and no other pending callback; a second [jsCallback] with
    the same id then changes nothing. *)
Theorem isFocused_resolved_once_by_jsCallback :
  forall (id : string) (args args' : list HVal) (st : CbState),
    cbWebview st = true ->
    let (st1, n) := isFocused id st in
    let st2 := jsCallback id args st1 in
    cbPosted st1 = cbPosted st ++ [(id, "checkFocused")] /\
    nth n (promises st1) (Some HUndefined) = None /\
    nth n (promises st2) None = Some (match args with a :: _ => a | [] => HUndefined end) /\
    (forall j, j <> n -> nth j (promises st2) None = nth j (promises st) None) /\
    cb_get (pendingCallbacks st2) id = None /\
    (forall k, k <> id -> cb_get (pendingCallbacks st2) k = cb_get (pendingCallbacks st) k) /\
    jsCallback id args' st2 = st2.
Proof.
  intros id args args' st Hw. unfold isFocused. rewrite Hw. cbn [negb].
  set (n := List.length (promises st)).
  assert (Hp : nth n (promises st ++ [None]) (Some HUndefined) = None).
  { unfold n. rewrite app_nth2, Nat.sub_diag by lia. reflexivity. }
  split; [reflexivity|]. split; [exact Hp|].
  assert (Hr : promises (jsCallback id args
                 (mkCb true (cb_set (pendingCallbacks st) id n) (promises st ++ [None])
                    (cbPosted st ++ [(id, "checkFocused")]))) =
               firstn n (promises st ++ [None]) ++
               match skipn n (promises st ++ [None]) with
               | [] => [] | _ :: r => Some (match args with a :: _ => a | [] => HUndefined end) :: r
               end).
  { unfold jsCallback. cbn [pendingCallbacks promises]. rewrite cb_get_set_same.
    unfold resolve. replace (nth n (promises st ++ [None]) None) with (@None HVal).
    - reflexivity.
    - unfold n. rewrite app_nth2, Nat.sub_diag by lia. reflexivity. }
  split.
  { rewrite Hr, splice_nth, Nat.eqb_refl.
    replace (Nat.ltb n (List.length (promises st ++ [None]))) with true; [reflexivity|].
    symmetry. apply Nat.ltb_lt. rewrite length_app. cbn. unfold n. lia. }
  split.
  { intros j Hj. rewrite Hr, splice_nth. apply Nat.eqb_neq in Hj. rewrite Hj.
    destruct (Nat.ltb_spec j n) as [Hlt|Hge].
    - rewrite app_nth1 by (unfold n in Hlt; lia). reflexivity.
    - rewrite app_nth2 by (unfold n in Hge; lia).
      rewrite (nth_overflow (promises st)) by (unfold n in Hge; lia).
      apply Nat.eqb_neq in Hj. destruct (j - List.length (promises st)) as [|m] eqn:E.
      + unfold n in Hj. lia.
      + destruct m; reflexivity. }
  set (st2 := jsCallback id args (mkCb true (cb_set (pendingCallbacks st) id n)
                                   (promises st ++ [None]) (cbPosted st ++ [(id, "checkFocused")]))).
  assert (Hpc : pendingCallbacks st2 = cb_delete (cb_set (pendingCallbacks st) id n) id) by reflexivity.
  rewrite Hpc. split; [apply cb_get_delete_same|]. split.
  { intros k Hk. rewrite cb_get_delete_other, cb_get_set_other by exact Hk. reflexivity. }
  apply jsCallback_absent. rewrite Hpc. apply cb_get_delete_same.
Qed.

(** Without a webview, [isFocused] settles to [false] at once: no callback
    is registered and nothing is posted. *)
Theorem isFocused_without_webview_is_false :
  forall (id : string) (st : CbState),
    cbWebview st = false ->
    let (st1, n) := isFocused id st in
    nth n (promises st1) None = Some (HBool false) /\
    pendingCallbacks st1 = pendingCallbacks st /\ cbPosted st1 = cbPosted st.
Proof.
  intros id st Hw. unfold isFocused. rewrite Hw. cbn.
  rewrite app_nth2, Nat.sub_diag by lia. repeat split; reflexivity.
Qed.

(** A [jsCallback] whose id is not pending changes nothing. *)
Theorem jsCallback_unknown_id_noop :
  forall (id : string) (args : list HVal) (st : CbState),
    cb_get (pendingCallbacks st) id = None ->
    jsCallback id args st = st.
Proof.
  intros id args st H. exact (jsCallback_absent id args st H).
Qed.

(** Examples for the callback theorems. *)
Lemma isFocused_resolved_once_by_jsCallback_witness :
  cbWebview LifecycleSamples.panel_with_pending_callback = true /\
  nth 1 (promises (jsCallback "a81e" [HBool true]
                     (fst (isFocused "a81e" LifecycleSamples.panel_with_pending_callback)))) None =
    Some (HBool true).
Proof.
  split; [reflexivity|].
  destruct (isFocused_resolved_once_by_jsCallback "a81e" [HBool true] []
              LifecycleSamples.panel_with_pending_callback eq_refl) as (_ & _ & H & _).
  exact H.
Defined.

Lemma isFocused_without_webview_is_false_witness :
  nth 0 (promises (fst (isFocused "a81e" (mkCb false [] [] [])))) None = Some (HBool false).
Proof.
  destruct (isFocused_without_webview_is_false "a81e" (mkCb false [] [] []) eq_refl) as (H & _).
  exact H.
Defined.

Lemma jsCallback_unknown_id_noop_witness :
  jsCallback "a81e" [HBool true] LifecycleSamples.panel_with_pending_callback =
    LifecycleSamples.panel_with_pending_callback.
Proof. apply jsCallback_unknown_id_noop. reflexivity. Defined.

End CallbacksClaims.

(* ================================================================== *)
(** ** Applying code blocks: facts *)
(* ================================================================== *)

Module ApplyFacts.
Import Panel Lookup Apply.

Lemma split_nl_nonempty (s : string) : exists l0 rest, split_nl s = l0 :: rest.
Proof.
  induction s as [|c r [l0 [rest IH]]]; cbn [split_nl replaceAllChar list_ascii_of_string String.append leading_ws repeat_str String.get String.length In]; [do 2 eexists; reflexivity|].
  destruct (Ascii.eqb c nl); [do 2 eexists; reflexivity|]. rewrite IH. do 2 eexists; reflexivity.
Qed.

Lemma split_nl_prefix (p s : string) :
  ~ In nl (list_ascii_of_string p) ->
  forall l0 rest, split_nl s = l0 :: rest ->
  split_nl (String.append p s) = String.append p l0 :: rest.
Proof.
  induction p as [|c r IH]; intros Hp l0 rest Hs; cbn [split_nl replaceAllChar list_ascii_of_string String.append leading_ws repeat_str String.get String.length In]; [exact Hs|].
  cbn [split_nl replaceAllChar list_ascii_of_string String.append leading_ws repeat_str String.get String.length In] in Hp. destruct (Ascii.eqb_spec c nl) as [E|_]; [subst; tauto|].
  rewrite (IH (fun H => Hp (or_intror H)) l0 rest Hs). reflexivity.
Qed.

Lemma split_nl_replace (ind : string) :
  ~ In nl (list_ascii_of_string ind) ->
  forall s l0 rest, split_nl s = l0 :: rest ->
  split_nl (replaceAllChar s nl (String nl ind)) = l0 :: map (String.append ind) rest.
Proof.
  intros Hind s. induction s as [|c r IH]; intros l0 rest Hs; cbn [split_nl replaceAllChar list_ascii_of_string String.append leading_ws repeat_str String.get String.length In] in Hs |- *.
  - injection Hs as <- <-. reflexivity.
  - destruct (split_nl_nonempty r) as [m0 [mrest Hr]].
    destruct (Ascii.eqb c nl) eqn:E.
    + cbn [split_nl replaceAllChar list_ascii_of_string String.append leading_ws repeat_str String.get String.length In]. rewrite Ascii.eqb_refl. rewrite Hr in Hs. injection Hs as <- <-.
      rewrite (split_nl_prefix ind _ Hind m0 (map (String.append ind) mrest) (IH m0 mrest Hr)).
      reflexivity.
    + cbn [split_nl replaceAllChar list_ascii_of_string String.append leading_ws repeat_str String.get String.length In]. rewrite E, (IH m0 mrest Hr). rewrite Hr in Hs. injection Hs as <- <-. reflexivity.
Qed.

Lemma replaceAllChar_nl_self (s : string) : replaceAllChar s nl (String nl EmptyString) = s.
Proof.
  induction s as [|c r IH]; cbn [split_nl replaceAllChar list_ascii_of_string String.append leading_ws repeat_str String.get String.length In]; [reflexivity|].
  destruct (Ascii.eqb_spec c nl) as [->|_]; cbn [split_nl replaceAllChar list_ascii_of_string String.append leading_ws repeat_str String.get String.length In]; rewrite IH; reflexivity.
Qed.

Lemma leading_ws_in (s : string) (x : ascii) :
  In x (list_ascii_of_string (leading_ws s)) -> In x (list_ascii_of_string s).
Proof.
  induction s as [|c r IH]; cbn [split_nl replaceAllChar list_ascii_of_string String.append leading_ws repeat_str String.get String.length In]; [tauto|].
  destruct (is_space c); cbn [split_nl replaceAllChar list_ascii_of_string String.append leading_ws repeat_str String.get String.length In]; [intros [H|H]; [left; exact H|right; exact (IH H)]|tauto].
Qed.

Lemma leading_ws_first (s : string) (u : ascii) :
  String.get 0 (leading_ws s) = Some u -> String.get 0 s = Some u /\ is_space u = true.
Proof.
  destruct s as [|c r]; cbn [split_nl replaceAllChar list_ascii_of_string String.append leading_ws repeat_str String.get String.length In]; [discriminate|].
  destruct (is_space c) eqn:E; cbn [split_nl replaceAllChar list_ascii_of_string String.append leading_ws repeat_str String.get String.length In]; [intros H; injection H as <-; auto|discriminate].
Qed.

Lemma repeat_str_chars (u : ascii) (n : nat) :
  list_ascii_of_string (repeat_str (String u EmptyString) n) = List.repeat u n.
Proof. induction n as [|n IH]; cbn [split_nl replaceAllChar list_ascii_of_string String.append leading_ws repeat_str String.get String.length In]; [reflexivity|]. rewrite IH. reflexivity. Qed.

End ApplyFacts.

Module ApplyClaims.
Import Panel Lookup Apply ApplyFacts.

(** For a line of the document (a text without line feed), the text that
    [applyInEditor] inserts has as many lines as the content: its first
    line is the content's first line after [max(indent.length - start
    character, 0)] copies of the line's first (whitespace) character, and
    every later line is the content's line after the line's whole leading
    whitespace.  When the line has no leading whitespace the content is
    inserted unchanged. *)
Theorem indentedContent_lines :
  forall (lineText : string) (startCharacter : nat) (content : string),
    ~ In nl (list_ascii_of_string lineText) ->
    let indent := leading_ws lineText in
    exists firstIndent,
      split_nl (indentedContent lineText startCharacter content) =
        match split_nl content with
        | l0 :: rest => String.append firstIndent l0 :: map (String.append indent) rest
        | [] => []
        end /\
      (forall u, String.get 0 indent = Some u ->
         String.get 0 lineText = Some u /\ is_space u = true /\
         list_ascii_of_string firstIndent = List.repeat u (String.length indent - startCharacter)) /\
      (indent = EmptyString -> indentedContent lineText startCharacter content = content).
Proof.
  intros lineText ch content Hnl indent.
  assert (Hind : ~ In nl (list_ascii_of_string indent)) by (intros H; exact (Hnl (leading_ws_in _ _ H))).
  set (firstIndent := match String.get 0 indent with
                      | Some u => repeat_str (String u EmptyString) (String.length indent - ch)
                      | None => EmptyString
                      end).
  exists firstIndent.
  assert (Hfirst : ~ In nl (list_ascii_of_string firstIndent)).
  { unfold firstIndent. destruct (String.get 0 indent) as [u|] eqn:Eu; [|cbn [split_nl replaceAllChar list_ascii_of_string String.append leading_ws repeat_str String.get String.length In]; tauto].
    rewrite repeat_str_chars. intros H. apply repeat_spec in H. subst u.
    apply Hind. destruct indent; cbn [split_nl replaceAllChar list_ascii_of_string String.append leading_ws repeat_str String.get String.length In] in Eu; [discriminate|]. injection Eu as ->. left; reflexivity. }
  destruct (split_nl_nonempty content) as [l0 [rest Hs]]. rewrite Hs.
  split; [|split].
  - unfold indentedContent. fold indent. fold firstIndent.
    apply (split_nl_prefix firstIndent _ Hfirst).
    exact (split_nl_replace indent Hind content l0 rest Hs).
  - intros u Hu. destruct (leading_ws_first lineText u Hu) as [H1 H2].
    split; [exact H1|]. split; [exact H2|]. unfold firstIndent. rewrite Hu. apply repeat_str_chars.
  - intros He. unfold indentedContent. fold indent. rewrite He. cbn [split_nl replaceAllChar list_ascii_of_string String.append leading_ws repeat_str String.get String.length In].
    apply replaceAllChar_nl_self.
Qed.

(** [onApplyInEditorV2]: without an active editor it only shows the error
    message; with one it applies the content exactly once; it applies it
    smartly exactly when [smart] is true and the editor's language is the
    requested [languageId]. *)
Theorem onApplyInEditorV2_steps :
  forall (editorLanguageId : option string) (options : option ApplyOptions),
    (editorLanguageId = None ->
     onApplyInEditorV2 editorLanguageId options = [ShowErrorMessage "No active editor found."]) /\
    (editorLanguageId <> None ->
     List.length (filter is_apply (onApplyInEditorV2 editorLanguageId options)) = 1) /\
    (In SmartApply (onApplyInEditorV2 editorLanguageId options) <->
     exists lang o, editorLanguageId = Some lang /\ options = Some o /\
                    smart o = Some true /\ languageId o = Some lang).
Proof.
  intros [lang|] options.
  - split; [discriminate|]. split.
    + intros _. unfold onApplyInEditorV2.
      destruct options as [o|]; [|reflexivity].
      destruct (match smart o with Some b => b | None => false end); [|reflexivity].
      destruct (match languageId o with Some l => String.eqb lang l | None => false end); reflexivity.
    + unfold onApplyInEditorV2. split.
      * destruct options as [o|]; [|cbn; intuition discriminate].
        destruct (smart o) as [[|]|] eqn:Es; cbn; [|intuition discriminate|intuition discriminate].
        destruct (languageId o) as [l|] eqn:El; cbn; [|intuition discriminate].
        destruct (String.eqb_spec lang l) as [->|Hne]; cbn.
        -- intros _. exists l, o. auto.
        -- intuition discriminate.
      * intros (l & o & E1 & E2 & E3 & E4). injection E1 as <-. subst options.
        rewrite E3, E4, String.eqb_refl. cbn. left. reflexivity.
  - split; [reflexivity|]. split; [intros H; contradiction|]. split.
    + cbn. intros [H|H]; [discriminate|contradiction].
    + intros (l & o & E & _). discriminate.
Qed.

(** Examples for the apply theorems: a block pasted at column 2 of a line
    indented by four spaces. *)
Lemma indentedContent_lines_witness :
  exists firstIndent,
    split_nl (indentedContent "    foo();" 2 (String.append "if (x) {" (String nl "}"))) =
      [String.append firstIndent "if (x) {"; String.append "    " "}"] /\
    list_ascii_of_string firstIndent = List.repeat " "%char 2.
Proof.
  assert (Hnl : ~ In nl (list_ascii_of_string "    foo();")) by (cbn; intuition discriminate).
  destruct (indentedContent_lines "    foo();" 2 (String.append "if (x) {" (String nl "}")) Hnl)
    as (fi & H1 & H2 & _).
  exists fi. split.
  - rewrite H1. reflexivity.
  - destruct (H2 " "%char eq_refl) as (_ & _ & H). exact H.
Defined.

Lemma onApplyInEditorV2_steps_witness :
  In SmartApply (onApplyInEditorV2 (Some "rust") (Some (mkApplyOptions (Some "rust") (Some true)))) /\
  List.length (filter is_apply (onApplyInEditorV2 (Some "rust") (Some (mkApplyOptions (Some "go") (Some true))))) = 1.
Proof.
  split.
  - destruct (onApplyInEditorV2_steps (Some "rust") (Some (mkApplyOptions (Some "rust") (Some true))))
      as (_ & _ & H). apply H. exists "rust", (mkApplyOptions (Some "rust") (Some true)).
    repeat split; reflexivity.
  - destruct (onApplyInEditorV2_steps (Some "rust") (Some (mkApplyOptions (Some "go") (Some true))))
      as (_ & H & _). apply H. discriminate.
Defined.

End ApplyClaims.

(* ================================================================== *)
(** ** Workspace requests: facts *)
(* ================================================================== *)

Module HostClaims.
Import Panel Lookup Host.

Section Repositories.

Variable Repository : Type.
Variable getRepository : string -> option Repository.
Variable getDefaultRemoteUrl : Repository -> option string.

Let remote := remote_of Repository getRepository getDefaultRemoteUrl.
Let repos := readWorkspaceGitRepositories Repository getRepository getDefaultRemoteUrl.

Lemma remote_of_nonempty (u url : string) : remote u = Some url -> url <> "".
Proof.
  unfold remote, remote_of. destruct (getRepository u) as [r|]; [|discriminate].
  destruct (getDefaultRemoteUrl r) as [x|]; [|discriminate].
  destruct (String.eqb_spec x ""); [discriminate|]. intros H. injection H as <-. assumption.
Qed.

Lemma folder_urls (fs : list string) (url : string) :
  In url (flat_map (fun folder =>
                      match remote folder with
                      | Some url => if match @None string with Some a => negb (String.eqb url a) | None => true end
                                    then [url] else []
                      | None => []
                      end) fs) <->
  exists f, In f fs /\ remote f = Some url.
Proof.
  rewrite in_flat_map. split.
  - intros (f & Hf & Hin). exists f. split; [exact Hf|].
    destruct (remote f) as [x|]; cbn in Hin; [|contradiction].
    destruct Hin as [->|[]]. reflexivity.
  - intros (f & Hf & Hr). exists f. split; [exact Hf|]. rewrite Hr. left. reflexivity.
Qed.

(** [readWorkspaceGitRepositories] lists exactly the (non-empty) default
    remote URLs of the active document's repository and of the
    repositories of the workspace folders. *)
Theorem readWorkspaceGitRepositories_members :
  forall (activeDocUri : option string) (workspaceFolders : option (list string)) (url : string),
    In url (repos activeDocUri workspaceFolders) <->
    url <> "" /\
    ((exists u, activeDocUri = Some u /\ remote u = Some url) \/
     (exists fs f, workspaceFolders = Some fs /\ In f fs /\ remote f = Some url)).
Proof.
  intros a ws url. unfold repos, readWorkspaceGitRepositories. fold remote.
  rewrite in_app_iff, folder_urls. split.
  - intros [Ha|(f & Hf & Hr)].
    + destruct a as [u|]; [|contradiction]. destruct (remote u) as [x|] eqn:Hr; [|contradiction].
      destruct Ha as [<-|[]]. split; [exact (remote_of_nonempty u x Hr)|]. left. eauto.
    + split; [exact (remote_of_nonempty f url Hr)|]. right.
      destruct ws as [fs|]; [|contradiction]. eauto.
  - intros [_ [(u & -> & Hr)|(fs & f & -> & Hf & Hr)]].
    + left. rewrite Hr. left. reflexivity.
    + right. eauto.
Qed.

(** The folder loop compares with [activeGitUrl], which is never assigned:
    when the active document and a workspace folder belong to repositories
    with the same remote URL, that URL is listed twice. *)
Theorem readWorkspaceGitRepositories_active_url_repeated :
  forall (u : string) (fs : list string) (f url : string),
    remote u = Some url -> In f fs -> remote f = Some url ->
    2 <= count_occ string_dec (repos (Some u) (Some fs)) url.
Proof.
  intros u fs f url Hu Hf Hr. unfold repos, readWorkspaceGitRepositories. fold remote.
  rewrite Hu, count_occ_app. cbn [count_occ].
  destruct (string_dec url url) as [_|]; [|contradiction].
  enough (1 <= count_occ string_dec
                 (flat_map (fun folder =>
                    match remote folder with
                    | Some url => if match @None string with Some a => negb (String.eqb url a) | None => true end
                                  then [url] else []
                    | None => []
                    end) fs) url) by lia.
  apply (count_occ_In string_dec). apply folder_urls. eauto.
Qed.

End Repositories.

(** Example: an editor open in the repository of the only workspace
    folder. *)
Lemma readWorkspaceGitRepositories_active_url_repeated_witness :
  readWorkspaceGitRepositories string (fun u => Some u) (fun _ => Some "https://github.com/TabbyML/tabby")
    (Some "file:///work/tabby/src/main.rs") (Some ["file:///work/tabby"]) =
    ["https://github.com/TabbyML/tabby"; "https://github.com/TabbyML/tabby"] /\
  2 <= count_occ string_dec
         (readWorkspaceGitRepositories string (fun u => Some u) (fun _ => Some "https://github.com/TabbyML/tabby")
            (Some "file:///work/tabby/src/main.rs") (Some ["file:///work/tabby"]))
         "https://github.com/TabbyML/tabby".
Proof.
  split; [reflexivity|].
  apply (readWorkspaceGitRepositories_active_url_repeated string (fun u => Some u)
           (fun _ => Some "https://github.com/TabbyML/tabby") "file:///work/tabby/src/main.rs"
           ["file:///work/tabby"] "file:///work/tabby").
  - reflexivity.
  - left. reflexivity.
  - reflexivity.
Defined.

End HostClaims.

(* ================================================================== *)
(** ** Session state store: round trip *)
(* ================================================================== *)

Module SessionExtraFacts.
Import Session.

Lemma map_get_set_same (m : SessionMap) (k : string) (v : JsObject) :
  map_get (map_set m k v) k = Some v.
Proof.
  induction m as [|[k0 v0] m IH]; unfold map_get in *; cbn.
  - rewrite String.eqb_refl. reflexivity.
  - destruct (String.eqb k0 k) eqn:E; cbn; [rewrite String.eqb_refl; reflexivity|].
    rewrite E. exact IH.
Qed.

Lemma own_cons (k0 : string) (v0 : JsValue) (o : JsObject) (k : string) :
  own ((k0, v0) :: o) k = if String.eqb k0 k then Some v0 else own o k.
Proof. unfold own. cbn. destruct (String.eqb k0 k); reflexivity. Qed.

Lemma own_define_prop (o : JsObject) (k0 : string) (v0 : JsValue) (k : string) :
  own (define_prop o k0 v0) k = if String.eqb k0 k then Some v0 else own o k.
Proof.
  induction o as [|[k1 v1] o IH]; cbn [define_prop].
  - rewrite own_cons. unfold own at 2. cbn. destruct (String.eqb k0 k); reflexivity.
  - destruct (String.eqb_spec k1 k0) as [->|Hne].
    + rewrite !own_cons. destruct (String.eqb k0 k); reflexivity.
    + rewrite !own_cons, IH.
      destruct (String.eqb_spec k1 k) as [->|], (String.eqb_spec k0 k) as [->|]; congruence.
Qed.

Lemma own_absent (o : JsObject) (k : string) : ~ In k (map fst o) -> own o k = None.
Proof.
  induction o as [|[k0 v0] o IH]; intros H; [reflexivity|].
  rewrite own_cons. cbn in H. destruct (String.eqb_spec k0 k); [tauto|]. apply IH. tauto.
Qed.

(** The value of a key after a spread is the last one [b] defines, or else
    the one of [a]. *)
Lemma own_spread (b : JsObject) :
  forall a k, own (spread a b) k =
    match own (spread [] b) k with Some v => Some v | None => own a k end.
Proof.
  induction b as [|[k0 v0] b IH]; intros a k; [reflexivity|].
  unfold spread. cbn [fold_left fst snd]. fold (spread (define_prop a k0 v0) b).
  fold (spread (define_prop [] k0 v0) b).
  rewrite IH, (IH (define_prop [] k0 v0)).
  destruct (own (spread [] b) k); [reflexivity|].
  rewrite !own_define_prop. destruct (String.eqb k0 k); reflexivity.
Qed.

Lemma own_spread_nodup (b : JsObject) (k : string) :
  NoDup (map fst b) -> own (spread [] b) k = own b k.
Proof.
  induction b as [|[k0 v0] b IH]; intros Hnd; [reflexivity|].
  inversion Hnd as [|? ? Hnot Hnd']; subst.
  unfold spread. cbn [fold_left fst snd]. fold (spread (define_prop [] k0 v0) b).
  rewrite own_spread, IH by exact Hnd'. rewrite own_cons.
  destruct (String.eqb_spec k0 k) as [->|Hne].
  - rewrite own_absent by exact Hnot. rewrite own_define_prop, String.eqb_refl. reflexivity.
  - destruct (own b k); [reflexivity|]. rewrite own_define_prop.
    destruct (String.eqb_spec k0 k); [contradiction|reflexivity].
Qed.

Lemma define_prop_keys (o : JsObject) (k0 : string) (v0 : JsValue) (x : string) :
  In x (map fst (define_prop o k0 v0)) <-> x = k0 \/ In x (map fst o).
Proof.
  induction o as [|[k1 v1] o IH]; cbn [define_prop map fst In].
  { split; [intros [H|[]]; left; congruence|intros [H|[]]; left; congruence]. }
  destruct (String.eqb_spec k1 k0) as [->|Hne]; cbn [map fst In].
  - split; [intros [H|H]; [left; congruence|tauto]|intros [H|[H|H]]; [left; congruence|left; exact H|tauto]].
  - rewrite IH. tauto.
Qed.

Lemma define_prop_nodup (o : JsObject) (k0 : string) (v0 : JsValue) :
  NoDup (map fst o) -> NoDup (map fst (define_prop o k0 v0)).
Proof.
  induction o as [|[k1 v1] o IH]; intros Hnd; cbn [define_prop map fst].
  - constructor; [tauto|constructor].
  - inversion Hnd as [|? ? Hnot Hnd']; subst.
    destruct (String.eqb_spec k1 k0) as [->|Hne]; cbn [map fst].
    + constructor; assumption.
    + constructor; [|exact (IH Hnd')]. rewrite define_prop_keys. intuition.
Qed.

Lemma spread_nodup (b : JsObject) :
  forall a, NoDup (map fst a) -> NoDup (map fst (spread a b)).
Proof.
  induction b as [|[k0 v0] b IH]; intros a Ha; [exact Ha|].
  unfold spread. cbn [fold_left fst snd]. fold (spread (define_prop a k0 v0) b).
  apply IH, define_prop_nodup, Ha.
Qed.

Lemma fetch_one_key (e : option string) (m : SessionMap) (k : string) :
  fetchSessionState e m (Some [k]) =
  let s := match map_get m (sessionStateKey e) with Some o => o | None => [] end in
  if js_in k s then assign_prop [] k (js_get s k) else [].
Proof. reflexivity. Qed.

End SessionExtraFacts.

Module SessionExtraClaims.
Import Session SessionExtraFacts.

(** [storeSessionState] merges into the state kept for the endpoint: after
    it, a fetch of every key returns, for each key, the value of the
    stored object when it has one and the earlier value otherwise.  A
    fetch of one own key of the stored object returns exactly that key and
    value, unless the key is [__proto__]: the assignment
    [filtered["__proto__"] = value] defines no property, so that key is
    never returned by a fetch with keys. *)
Theorem store_then_fetch_round_trip :
  forall (e : option string) (m : SessionMap) (state : JsObject),
    NoDup (map fst state) ->
    (forall o, map_get m (sessionStateKey e) = Some o -> NoDup (map fst o)) ->
    (forall k, own (fetchSessionState e (storeSessionState e m state) None) k =
               match own state k with
               | Some v => Some v
               | None => own (fetchSessionState e m None) k
               end) /\
    (forall k v, k <> "__proto__" -> own state k = Some v ->
       fetchSessionState e (storeSessionState e m state) (Some [k]) = [(k, v)]) /\
    fetchSessionState e (storeSessionState e m state) (Some ["__proto__"]) = [].
Proof.
  intros e m state Hst Hm.
  set (old := match map_get m (sessionStateKey e) with Some o => o | None => [] end).
  assert (Hold : NoDup (map fst old)).
  { unfold old. destruct (map_get m (sessionStateKey e)) as [o|] eqn:E; [exact (Hm o eq_refl)|constructor]. }
  assert (Hget : map_get (storeSessionState e m state) (sessionStateKey e) = Some (spread old state)).
  { unfold storeSessionState. apply map_get_set_same. }
  assert (Hnew : NoDup (map fst (spread old state))) by (apply spread_nodup, Hold).
  assert (Hown : forall k, own (spread old state) k =
                   match own state k with Some v => Some v | None => own old k end).
  { intros k. rewrite own_spread, own_spread_nodup by exact Hst. reflexivity. }
  split; [|split].
  - intros k. unfold fetchSessionState. rewrite Hget. fold old.
    rewrite !own_spread_nodup by assumption. apply Hown.
  - intros k v Hk Hv. rewrite fetch_one_key. cbn zeta. rewrite Hget.
    unfold js_in, js_get. rewrite Hown, Hv. unfold assign_prop.
    destruct (String.eqb_spec k "__proto__"); [contradiction|reflexivity].
  - rewrite fetch_one_key. cbn zeta.
    destruct (js_in "__proto__" _); reflexivity.
Qed.

(** Example: storing [{b: 3}] over [{a: 1, b: 2}]. *)
Lemma store_then_fetch_round_trip_witness :
  fetchSessionState (Some "http://localhost:8080")
    (storeSessionState (Some "http://localhost:8080")
       [("http://localhost:8080", [("a", JNum 1); ("b", JNum 2)])] [("b", JNum 3)]) (Some ["b"]) =
  [("b", JNum 3)].
Proof.
  destruct (store_then_fetch_round_trip (Some "http://localhost:8080")
              [("http://localhost:8080", [("a", JNum 1); ("b", JNum 2)])] [("b", JNum 3)])
    as (_ & H & _).
  - constructor; [tauto|constructor].
  - intros o Ho. injection Ho as <-. cbn. constructor; [|constructor; [tauto|constructor]].
    intros [H|[]]. discriminate.
  - apply H; [discriminate|reflexivity].
Defined.

End SessionExtraClaims.

(* ================================================================== *)
(** ** getChanges: shape of the result *)
(* ================================================================== *)

Module ChangesExtraFacts.
Import Changes Subsequence.
Local Open Scope Z_scope.

Lemma subseq_nil_l {A : Type} (l : list A) : subseq [] l.
Proof. induction l; constructor; assumption. Qed.

Lemma subseq_app {A : Type} (a b c d : list A) :
  subseq a b -> subseq c d -> subseq (a ++ c) (b ++ d).
Proof. intros H1 H2. induction H1; cbn; [exact H2|constructor; assumption|constructor; assumption]. Qed.

Lemma subseq_firstn {A : Type} (l : list A) : forall k, subseq (firstn k l) l.
Proof.
  induction l as [|x l IH]; intros [|k]; cbn.
  - constructor.
  - constructor.
  - apply subseq_nil_l.
  - apply subseq_take, IH.
Qed.

Lemma diffs_loop_shape (c : option Z) (stg : bool) (diffs : list string) :
  forall res count, exists k cnt,
    diffs_loop c stg diffs res count = (res ++ map (fun d => mkChange d stg) (firstn k diffs), cnt).
Proof.
  induction diffs as [|d rest IH]; intros res count.
  - exists 0%nat, count. cbn. rewrite app_nil_r. reflexivity.
  - cbn [diffs_loop].
    destruct c as [l|]; [destruct (Z.ltb l (count + chars d))|].
    + exists 0%nat, count. cbn. rewrite app_nil_r. reflexivity.
    + destruct (IH (res ++ [mkChange d stg]) (count + chars d)) as (k & cnt & E).
      exists (S k), cnt. rewrite E, <- app_assoc. reflexivity.
    + destruct (IH (res ++ [mkChange d stg]) (count + chars d)) as (k & cnt & E).
      exists (S k), cnt. rewrite E, <- app_assoc. reflexivity.
Qed.

Lemma diffs_loop_unbounded (stg : bool) (diffs : list string) :
  forall res count, fst (diffs_loop None stg diffs res count) = res ++ map (fun d => mkChange d stg) diffs.
Proof.
  induction diffs as [|d rest IH]; intros res count; cbn [diffs_loop].
  - rewrite app_nil_r. reflexivity.
  - rewrite IH, <- app_assoc. reflexivity.
Qed.

Section Provider.
Variable Repository : Type.
Variable getDiff : Repository -> bool -> option (list string).

Lemma all_diffs_cons (r : Repository) (repos : list Repository) (stg : bool) :
  all_diffs Repository getDiff (r :: repos) stg =
  match getDiff r stg with Some ds => ds | None => [] end ++ all_diffs Repository getDiff repos stg.
Proof. reflexivity. Qed.

Lemma repos_loop_shape (c : option Z) (stg : bool) (repos : list Repository) :
  forall res count, exists s,
    repos_loop Repository getDiff c stg repos res count = res ++ map (fun d => mkChange d stg) s /\
    subseq s (all_diffs Repository getDiff repos stg).
Proof.
  induction repos as [|r repos IH]; intros res count.
  - exists []. cbn. rewrite app_nil_r. split; [reflexivity|constructor].
  - cbn [repos_loop]. rewrite all_diffs_cons.
    destruct (getDiff r stg) as [diffs|].
    + destruct (diffs_loop_shape c stg diffs res count) as (k & cnt & E). rewrite E.
      destruct (IH (res ++ map (fun d => mkChange d stg) (firstn k diffs)) cnt) as (s & Es & Hs).
      assert (Hstop : subseq (firstn k diffs) (diffs ++ all_diffs Repository getDiff repos stg)).
      { rewrite <- (app_nil_r (firstn k diffs)). apply subseq_app; [apply subseq_firstn|apply subseq_nil_l]. }
      assert (Hgo : subseq (firstn k diffs ++ s) (diffs ++ all_diffs Repository getDiff repos stg))
        by (apply subseq_app; [apply subseq_firstn|exact Hs]).
      destruct c as [l|]; [destruct (Z.leb l cnt)|].
      * exists (firstn k diffs). split; [reflexivity|exact Hstop].
      * exists (firstn k diffs ++ s). rewrite Es, map_app, app_assoc. split; [reflexivity|exact Hgo].
      * exists (firstn k diffs ++ s). rewrite Es, map_app, app_assoc. split; [reflexivity|exact Hgo].
    + exact (IH res count).
Qed.

Lemma repos_loop_unbounded (stg : bool) (repos : list Repository) :
  forall res count, repos_loop Repository getDiff None stg repos res count =
    res ++ map (fun d => mkChange d stg) (all_diffs Repository getDiff repos stg).
Proof.
  induction repos as [|r repos IH]; intros res count.
  - cbn. rewrite app_nil_r. reflexivity.
  - cbn [repos_loop]. rewrite all_diffs_cons.
    destruct (getDiff r stg) as [diffs|]; [|apply IH].
    pose proof (diffs_loop_unbounded stg diffs res count) as E.
    destruct (diffs_loop None stg diffs res count) as [res' cnt]. cbn in E. subst res'.
    rewrite IH, map_app, app_assoc. reflexivity.
Qed.

Lemma getRepoChanges_shape (repos : list Repository) (stg : bool) (c : option Z) :
  exists s, getRepoChanges Repository getDiff repos stg c = map (fun d => mkChange d stg) s /\
    subseq s (all_diffs Repository getDiff repos stg) /\
    (forall l, c = Some l -> l <= 0 -> s = []) /\
    (c = None -> s = all_diffs Repository getDiff repos stg).
Proof.
  unfold getRepoChanges. destruct c as [l|].
  - destruct (Z.leb_spec l 0) as [Hl|Hl].
    + exists []. split; [reflexivity|]. split; [apply subseq_nil_l|]. split; [reflexivity|discriminate].
    + destruct (repos_loop_shape (Some l) stg repos [] 0) as (s & E & Hs).
      exists s. split; [exact E|]. split; [exact Hs|]. split; [|discriminate].
      intros l' H. injection H as <-. lia.
  - exists (all_diffs Repository getDiff repos stg). rewrite repos_loop_unbounded.
    split; [reflexivity|]. split.
    + clear. induction (all_diffs Repository getDiff repos stg); constructor; assumption.
    + split; [discriminate|reflexivity].
Qed.

End Provider.

End ChangesExtraFacts.

Module ChangesExtraClaims.
Import Changes Subsequence ChangesExtraFacts.
Local Open Scope Z_scope.

(** [getChanges] returns staged items, then unstaged items: the staged
    contents are a subsequence (same order, some left out) of all staged
    diffs of the repositories, in repository order, and the unstaged ones a
    subsequence of all unstaged diffs.  Without the git API or without
    repositories it returns nothing; with [maxChars <= 0] it returns
    nothing; without [maxChars] it returns every staged diff and then every
    unstaged diff. *)
Theorem getChanges_staged_then_unstaged :
  forall (Repository : Type) (getDiff : Repository -> bool -> option (list string))
         (isApiAvailable : bool) (repositories : option (list Repository)) (maxChars : option Z),
    exists staged unstaged,
      getChanges Repository getDiff isApiAvailable repositories maxChars =
        map (fun d => mkChange d true) staged ++ map (fun d => mkChange d false) unstaged /\
      (forall repos, repositories = Some repos ->
         subseq staged (all_diffs Repository getDiff repos true) /\
         subseq unstaged (all_diffs Repository getDiff repos false)) /\
      ((isApiAvailable = false \/ repositories = None \/ exists m, maxChars = Some m /\ m <= 0) ->
         staged = [] /\ unstaged = []) /\
      (isApiAvailable = true -> maxChars = None -> forall repos, repositories = Some repos ->
         staged = all_diffs Repository getDiff repos true /\
         unstaged = all_diffs Repository getDiff repos false).
Proof.
  intros Repository getDiff avail repositories maxChars.
  destruct avail; [|exists [], []; split; [reflexivity|]; split;
    [intros; split; apply subseq_nil_l|split; [auto|discriminate]]].
  destruct repositories as [repos|];
    [|exists [], []; split; [reflexivity|]; split; [discriminate|split; [auto|discriminate]]].
  destruct (getRepoChanges_shape Repository getDiff repos true maxChars) as (s & Es & Hs & Hs0 & HsN).
  set (rem := match maxChars with
              | Some m => Some (m - total_chars (getRepoChanges Repository getDiff repos true maxChars))
              | None => None end).
  destruct (getRepoChanges_shape Repository getDiff repos false rem) as (u & Eu & Hu & Hu0 & HuN).
  exists s, u. split.
  { unfold getChanges. cbn [negb]. fold rem. rewrite Es, Eu. reflexivity. }
  split; [intros r Hr; injection Hr as <-; split; assumption|]. split.
  - intros [H|[H|(m & Hm & Hle)]]; [discriminate|discriminate|].
    assert (Hs' : s = []) by exact (Hs0 m Hm Hle). split; [exact Hs'|].
    apply (Hu0 (m - total_chars (getRepoChanges Repository getDiff repos true maxChars))).
    + unfold rem. rewrite Hm. reflexivity.
    + rewrite Es, Hs'. unfold total_chars. cbn. lia.
  - intros _ HN r Hr. injection Hr as <-. split; [exact (HsN HN)|].
    apply HuN. unfold rem. rewrite HN. reflexivity.
Qed.

(** Example: one repository with two staged and one unstaged diff, without
    [maxChars]. *)
Lemma getChanges_staged_then_unstaged_witness :
  getChanges unit (fun _ stg => if stg then Some ["+a"; "+b"] else Some ["-c"]) true (Some [tt]) None =
    [mkChange "+a" true; mkChange "+b" true; mkChange "-c" false].
Proof.
  destruct (getChanges_staged_then_unstaged unit
              (fun _ stg => if stg then Some ["+a"; "+b"] else Some ["-c"]) true (Some [tt]) None)
    as (s & u & E & _ & _ & Hall).
  destruct (Hall eq_refl eq_refl [tt] eq_refl) as [-> ->]. exact E.
Defined.

End ChangesExtraClaims.

(* ================================================================== *)
(** ** listSymbols: order, uniqueness and provenance *)
(* ================================================================== *)

Module SymbolsExtraFacts.
Import Panel Symbols SymbolsOrder.

Section Query.
Variable query : string.

Lemma sort_before_false (x y : ListSymbolItem) :
  sort_before query x y = false -> ranked query y x.
Proof.
  unfold sort_before, ranked.
  destruct (Nat.eqb_spec (getMatchScore query (item_label y)) (getMatchScore query (item_label x))) as [E|E];
    cbn [negb].
  - intros H. apply Nat.ltb_ge in H. right. split; [exact E|exact H].
  - intros H. apply Nat.ltb_ge in H. left. lia.
Qed.

Lemma sort_before_true (x y : ListSymbolItem) :
  sort_before query x y = true -> ranked query x y.
Proof.
  unfold sort_before, ranked.
  destruct (Nat.eqb_spec (getMatchScore query (item_label y)) (getMatchScore query (item_label x))) as [E|E];
    cbn [negb].
  - intros H. apply Nat.ltb_lt in H. right. split; [congruence|lia].
  - intros H. apply Nat.ltb_lt in H. left. exact H.
Qed.

Lemma insert_sorted_head (x y : ListSymbolItem) (l : list ListSymbolItem) :
  ranked query y x -> HdRel (ranked query) y l -> HdRel (ranked query) y (insert_sorted (sort_before query) x l).
Proof.
  intros Hyx Hyl. destruct l as [|z zs]; cbn.
  - constructor. exact Hyx.
  - destruct (sort_before query x z); constructor; [exact Hyx|]. inversion Hyl; assumption.
Qed.

Lemma insert_sorted_sorted (x : ListSymbolItem) (l : list ListSymbolItem) :
  Sorted (ranked query) l -> Sorted (ranked query) (insert_sorted (sort_before query) x l).
Proof.
  induction l as [|y ys IH]; intros Hs; cbn.
  - constructor; constructor.
  - destruct (sort_before query x y) eqn:E.
    + constructor; [exact Hs|]. constructor. apply sort_before_true. exact E.
    + inversion Hs as [|? ? Hs' Hhd]; subst. constructor; [exact (IH Hs')|].
      apply insert_sorted_head; [apply sort_before_false; exact E|exact Hhd].
Qed.

Lemma stable_sort_sorted (l : list ListSymbolItem) :
  forall acc, Sorted (ranked query) acc ->
    Sorted (ranked query) (fold_left (fun acc x => insert_sorted (sort_before query) x acc) l acc).
Proof.
  induction l as [|x l IH]; intros acc Hacc; cbn; [exact Hacc|].
  apply IH, insert_sorted_sorted, Hacc.
Qed.

Lemma firstn_sorted {A : Type} (R : A -> A -> Prop) (l : list A) :
  Sorted R l -> forall k, Sorted R (firstn k l).
Proof.
  induction 1 as [|a l Hs IH Hhd]; intros [|k]; cbn; try constructor.
  - apply IH.
  - destruct l as [|b l]; destruct k; cbn; constructor. inversion Hhd; assumption.
Qed.

End Query.

Lemma insert_sorted_perm (before : ListSymbolItem -> ListSymbolItem -> bool)
    (x : ListSymbolItem) (l : list ListSymbolItem) :
  Permutation (insert_sorted before x l) (x :: l).
Proof.
  induction l as [|y ys IH]; cbn; [reflexivity|].
  destruct (before x y); [reflexivity|].
  transitivity (y :: x :: ys); [constructor; exact IH|constructor].
Qed.

Lemma stable_sort_perm (before : ListSymbolItem -> ListSymbolItem -> bool) (l : list ListSymbolItem) :
  forall acc, Permutation (fold_left (fun acc x => insert_sorted before x acc) l acc) (l ++ acc).
Proof.
  induction l as [|x l IH]; intros acc; cbn; [reflexivity|].
  rewrite IH, insert_sorted_perm. symmetry. apply Permutation_middle.
Qed.

Lemma existsb_eqb_in (k : string) (seen : list string) :
  existsb (String.eqb k) seen = true <-> In k seen.
Proof.
  rewrite existsb_exists. split.
  - intros (x & Hx & E). apply String.eqb_eq in E. subst. exact Hx.
  - intros H. exists k. split; [exact H|apply String.eqb_refl].
Qed.

Lemma dedup_spec (items : list ListSymbolItem) :
  forall seen,
    NoDup (map item_key (dedup seen items)) /\
    (forall it, In it (dedup seen items) -> In it items /\ ~ In (item_key it) seen).
Proof.
  induction items as [|it items IH]; intros seen; cbn [dedup].
  - split; [constructor|intros _ []].
  - destruct (existsb (String.eqb (item_key it)) seen) eqn:E.
    + destruct (IH seen) as [H1 H2]. split; [exact H1|].
      intros x Hx. destruct (H2 x Hx). split; [right; assumption|assumption].
    + destruct (IH (item_key it :: seen)) as [H1 H2]. split.
      * cbn [map]. constructor; [|exact H1].
        intros Hin. apply in_map_iff in Hin as (y & Ey & Hy).
        destruct (H2 y Hy) as [_ Hn]. apply Hn. left. symmetry. exact Ey.
      * intros x [<-|Hx].
        -- split; [left; reflexivity|]. intros Hin. apply existsb_eqb_in in Hin. congruence.
        -- destruct (H2 x Hx) as [Hi Hn]. split; [right; exact Hi|]. intros Hin. apply Hn. right. exact Hin.
Qed.

Lemma in_firstn_l {A : Type} (x : A) (k : nat) (l : list A) : In x (firstn k l) -> In x l.
Proof. intros H. rewrite <- (firstn_skipn k l). apply in_or_app. left. exact H. Qed.

Lemma NoDup_firstn {A : Type} (l : list A) : NoDup l -> forall k, NoDup (firstn k l).
Proof.
  induction 1 as [|a l Ha Hl IH]; intros [|k]; cbn; try constructor.
  - intros Hin. apply Ha. exact (in_firstn_l _ _ _ Hin).
  - apply IH.
Qed.

End SymbolsExtraFacts.

Module SymbolsExtraClaims.
Import Panel Symbols SymbolsOrder SymbolsExtraFacts.

Lemma mergeResults_in (l w : list ListSymbolItem) (q : string) (limit : nat) (it : ListSymbolItem) :
  In it (mergeResults l w q limit) -> In it (l ++ w).
Proof.
  unfold mergeResults. intros H. apply in_firstn_l in H. unfold stable_sort in H.
  apply (Permutation_in _ (stable_sort_perm _ _ [])) in H. rewrite app_nil_r in H.
  exact (proj1 (proj2 (dedup_spec (l ++ w) []) it H)).
Qed.

(** For a non-empty query, [listSymbols] sends the query to the workspace
    symbol provider once, returns at most [limit] items, sorted by match
    score (descending) and then by label length (ascending), and no two of
    them have the same deduplication key
    [`${filepath}-${label}-${range.start}-${range.end}`]. *)
Theorem listSymbols_ranked_unique :
  forall (query : string) (limitParam : option Z) (docUri : string)
         (documentSymbols : list ProviderSymbol)
         (workspaceSymbols : string -> Provided (list SymbolInformation))
         (localUriToChatPanelFilepath : string -> Filepath),
    query <> "" ->
    let res := listSymbols query limitParam (Some docUri) (Provides documentSymbols)
                 workspaceSymbols localUriToChatPanelFilepath in
    snd res = [query] /\
    List.length (fst res) <= Z.to_nat (effectiveLimit limitParam) /\
    Sorted (ranked query) (fst res) /\
    NoDup (map item_key (fst res)).
Proof.
  intros query limitParam docUri docSyms ws tofp Hq res.
  unfold res, listSymbols. destruct (String.eqb_spec query "") as [E|_]; [contradiction|].
  cbn [fst snd]. split; [reflexivity|]. unfold mergeResults.
  split; [|split].
  - rewrite length_firstn. lia.
  - apply firstn_sorted. unfold stable_sort. apply stable_sort_sorted. constructor.
  - rewrite <- firstn_map. apply NoDup_firstn.
    eapply Permutation_NoDup; [symmetry; apply Permutation_map; unfold stable_sort; apply stable_sort_perm|].
    rewrite app_nil_r. apply dedup_spec.
Qed.

(** For a non-empty query, every item [listSymbols] returns is either a
    symbol of the active document (among the first [limit] of the
    breadth-first traversal) whose name or container name contains the
    query, ignoring case, or a symbol the workspace symbol provider
    returned for the query. *)
Theorem listSymbols_items_provenance :
  forall (query : string) (limitParam : option Z) (docUri : string)
         (documentSymbols : list ProviderSymbol)
         (workspaceSymbols : string -> Provided (list SymbolInformation))
         (localUriToChatPanelFilepath : string -> Filepath) (it : ListSymbolItem),
    query <> "" ->
    In it (fst (listSymbols query limitParam (Some docUri) (Provides documentSymbols)
                  workspaceSymbols localUriToChatPanelFilepath)) ->
    (exists s, In s (getDocumentSymbols (Z.to_nat (effectiveLimit limitParam)) docUri documentSymbols) /\
       (Str.includes (Str.toLowerCase (si_name s)) (Str.toLowerCase query) ||
        Str.includes (Str.toLowerCase (si_containerName s)) (Str.toLowerCase query))%bool = true /\
       it = symbolToItem s (localUriToChatPanelFilepath docUri)) \/
    (exists l s, workspaceSymbols query = Provides l /\ In s l /\
       it = mkItem (localUriToChatPanelFilepath (si_uri s)) (toLineRange (si_range s)) (si_name s)).
Proof.
  intros query limitParam docUri docSyms ws tofp it Hq Hin.
  unfold listSymbols in Hin. destruct (String.eqb_spec query "") as [E|_]; [contradiction|].
  cbn [fst] in Hin. apply mergeResults_in, in_app_or in Hin. destruct Hin as [Hl|Hw].
  - left. apply in_map_iff in Hl as (s & <- & Hs). unfold filterSymbols in Hs.
    apply filter_In in Hs as [Hs Hm]. exists s. auto.
  - right. destruct (ws query) as [l|]; [|contradiction].
    apply in_map_iff in Hw as (s & <- & Hs). exists l, s. auto.
Qed.

(** Examples: the query [s1] over the eight symbols [s0] .. [s7] and a
    workspace symbol [s10]; the query [main] over [main] of a.ts and b.ts. *)
Lemma listSymbols_ranked_unique_witness :
  Sorted (ranked "s1")
    (fst (listSymbols "s1" (Some 5%Z) (Some "file:///a.ts") (Provides Samples.sample_symbols8)
            (fun q => Provides [mkSymbolInformation "s10" "" "file:///b.ts" Samples.main_range])
            FilepathUri)).
Proof.
  destruct (listSymbols_ranked_unique "s1" (Some 5%Z) "file:///a.ts" Samples.sample_symbols8
              (fun q => Provides [mkSymbolInformation "s10" "" "file:///b.ts" Samples.main_range])
              FilepathUri ltac:(discriminate)) as (_ & _ & H & _).
  exact H.
Defined.

Lemma listSymbols_items_provenance_witness :
  (exists s, In s (getDocumentSymbols (Z.to_nat (effectiveLimit None)) "file:///a.ts" Samples.sample_main_symbols) /\
     (Str.includes (Str.toLowerCase (si_name s)) (Str.toLowerCase "main") ||
      Str.includes (Str.toLowerCase (si_containerName s)) (Str.toLowerCase "main"))%bool = true /\
     mkItem (FilepathUri "file:///a.ts") (toLineRange Samples.main_range) "main" =
       symbolToItem s (FilepathUri "file:///a.ts")) \/
  (exists l s, Samples.sample_main_workspace "main" = Provides l /\ In s l /\
     mkItem (FilepathUri "file:///a.ts") (toLineRange Samples.main_range) "main" =
       mkItem (FilepathUri (si_uri s)) (toLineRange (si_range s)) (si_name s)).
Proof.
  apply (listSymbols_items_provenance "main" None "file:///a.ts" Samples.sample_main_symbols
           Samples.sample_main_workspace FilepathUri).
  - discriminate.
  - vm_compute. left. reflexivity.
Defined.

End SymbolsExtraClaims.

(* ================================================================== *)
(** ** lookupSymbol: where a found symbol is *)
(* ================================================================== *)

Module LookupExtraFacts.
Import Panel Lookup LookupFacts LookupResult.

Lemma substring_length (s : string) :
  forall a n, a + n <= String.length s -> String.length (String.substring a n s) = n.
Proof.
  induction s as [|c r IH]; intros a n H; cbn in H.
  - assert (a = 0 /\ n = 0) as [-> ->] by lia. reflexivity.
  - destruct a as [|a]; cbn.
    + destruct n as [|n]; cbn; [reflexivity|]. f_equal. apply IH. lia.
    + apply IH. lia.
Qed.

Lemma substring_prefix (s : string) :
  forall n i m, i + m <= n ->
    String.substring i m (String.substring 0 n s) = String.substring i m s.
Proof.
  induction s as [|c r IH]; intros n i m H.
  - destruct n, i, m; reflexivity.
  - destruct n as [|n]; [assert (i = 0 /\ m = 0) as [-> ->] by lia; reflexivity|].
    cbn [String.substring]. destruct i as [|i].
    + destruct m as [|m]; [reflexivity|]. cbn. f_equal. apply IH. lia.
    + apply IH. lia.
Qed.

Lemma substring_substring (s : string) :
  forall a n i m, i + m <= n ->
    String.substring i m (String.substring a n s) = String.substring (a + i) m s.
Proof.
  induction s as [|c r IH]; intros a n i m H.
  - destruct a; cbn; destruct n, i, m; reflexivity.
  - destruct a as [|a]; [apply substring_prefix; exact H|].
    cbn [String.substring Nat.add]. apply IH. exact H.
Qed.

Lemma substring_all (s : string) : String.substring 0 (String.length s) s = s.
Proof. induction s as [|c r IH]; cbn; [reflexivity|]. rewrite IH. reflexivity. Qed.

Lemma match_at_spec (content sym : string) (i : nat) :
  match_at content sym i = true ->
  String.substring i (String.length sym) content = sym /\ i + String.length sym <= String.length content.
Proof.
  unfold match_at. intros H. apply andb_prop in H as [H _]. apply andb_prop in H as [H _].
  apply andb_prop in H as [H1 H2]. apply String.eqb_eq in H1. apply Nat.leb_le in H2. auto.
Qed.

Lemma exec_all_match (content sym : string) (fuel : nat) :
  forall i j, In j (exec_all fuel content sym i) -> match_at content sym j = true.
Proof.
  induction fuel as [|f IH]; intros i j Hj; cbn [exec_all In] in Hj; [contradiction|].
  destruct (Nat.ltb (String.length content) i); [contradiction|].
  destruct (match_at content sym i) eqn:E.
  - destruct Hj as [<-|Hj]; [exact E|exact (IH _ _ Hj)].
  - exact (IH _ _ Hj).
Qed.

Lemma filter_nil_above (l : list nat) (a o : nat) :
  Forall (lt a) l -> o < a -> filter (fun x => Nat.leb x o) l = [].
Proof.
  induction 1 as [|x l Hx Hl IH]; intros Ho; cbn; [reflexivity|].
  replace (Nat.leb x o) with false by (symmetry; apply Nat.leb_gt; lia). exact (IH Ho).
Qed.

(** In a sorted list, the elements at most [o] are a prefix. *)
Lemma sorted_filter_prefix (l : list nat) (o : nat) :
  StronglySorted lt l ->
  let c := List.length (filter (fun x => Nat.leb x o) l) in
  c <= List.length l /\
  (forall k, k < c -> nth k l 0 <= o) /\
  (c < List.length l -> o < nth c l 0).
Proof.
  induction 1 as [|a l Hs IH Hall]; cbn zeta in *; cbn [filter List.length]; [split; [lia|split; [lia|lia]]|].
  destruct IH as (IH1 & IH2 & IH3).
  destruct (Nat.leb_spec a o) as [Ha|Ha]; cbn [List.length].
  - split; [lia|]. split.
    + intros [|k] Hk; [exact Ha|]. apply IH2. lia.
    + intros Hc. apply IH3. lia.
  - rewrite (filter_nil_above l a o Hall Ha). cbn [List.length]. split; [lia|]. split; [lia|].
    intros _. exact Ha.
Qed.

Lemma offsetAt_le (d : TextDocument) (p : Position) : offsetAt d p <= String.length (text d).
Proof.
  unfold offsetAt, line_end.
  destruct (nth_error (line_starts (text d)) (fst p)) as [st|]; [|lia].
  destruct (nth_error (line_starts (text d)) (S (fst p))) as [o|] eqn:E; [|lia].
  apply nth_error_In, line_starts_bound in E. lia.
Qed.

(** [positionAt] and [offsetAt] are inverse on the offsets of the text. *)
Lemma offsetAt_positionAt (d : TextDocument) (o : nat) :
  o <= String.length (text d) -> offsetAt d (positionAt d o) = o.
Proof.
  intros Ho. unfold positionAt.
  replace (Nat.min o (String.length (text d))) with o by lia.
  set (N := newline_offsets (text d) 0).
  destruct (sorted_filter_prefix N o (newline_offsets_sorted (text d) 0)) as (H1 & H2 & H3).
  set (c := List.length (filter (fun x => Nat.leb x o) N)) in *.
  assert (Hst : nth c (line_starts (text d)) 0 <= o).
  { unfold line_starts. fold N. destruct c as [|k]; [cbn; lia|]. cbn [nth]. apply H2. lia. }
  unfold offsetAt, line_end. cbn [fst snd].
  assert (Hc : nth_error (line_starts (text d)) c = Some (nth c (line_starts (text d)) 0)).
  { apply nth_error_nth'. unfold line_starts. cbn [List.length]. fold N. lia. }
  assert (Hn : nth_error (line_starts (text d)) (S c) = nth_error N c) by reflexivity.
  rewrite Hc, Hn.
  destruct (nth_error N c) as [nx|] eqn:E.
  - assert (Hlt : c < List.length N) by (apply nth_error_Some; rewrite E; discriminate).
    rewrite (nth_error_nth _ _ _ E) in H3. specialize (H3 Hlt). lia.
  - lia.
Qed.

(** An occurrence found in a part [substring a n] of the text is, at the
    position [positionAt] gives for it, an occurrence in the text. *)
Lemma occurrence_in_text (d : TextDocument) (sym : string) (a n i : nat) :
  a + n <= String.length (text d) ->
  match_at (String.substring a n (text d)) sym i = true ->
  String.substring (offsetAt d (positionAt d (a + i))) (String.length sym) (text d) = sym.
Proof.
  intros Hn Hm. apply match_at_spec in Hm as [Hs Hb].
  rewrite substring_length in Hb by exact Hn.
  rewrite offsetAt_positionAt by lia.
  rewrite <- (substring_substring (text d) a n i) by exact Hb. exact Hs.
Qed.

Section Collaborators.
Variable resolve : Panel.Filepath -> option string.
Variable open_ : string -> Result TextDocument.
Variable defs : string -> Position -> list DefLocation.
Variable tofp : string -> Panel.Filepath.

Lemma first_definition_found (symbol : string) (d : TextDocument) (a n : nat) :
  a + n <= String.length (text d) ->
  forall si, first_definition defs tofp d a (occurrences (String.substring a n (text d)) symbol) = Some si ->
  found_in defs tofp symbol d si.
Proof.
  intros Hn. unfold occurrences.
  generalize (exec_all_match (String.substring a n (text d)) symbol
                (S (String.length (String.substring a n (text d)))) 0).
  generalize (exec_all (S (String.length (String.substring a n (text d))))
                (String.substring a n (text d)) symbol 0) as occs.
  induction occs as [|i rest IH]; intros Hocc si H; cbn in H; [discriminate|].
  destruct (defs (uri d) (positionAt d (a + i))) as [|loc tl] eqn:E.
  - exact (IH (fun j Hj => Hocc j (or_intror Hj)) si H).
  - assert (Hsub := occurrence_in_text d symbol a n i Hn (Hocc i (or_introl eq_refl))).
    destruct loc as [tu tr tsr|lu r]; injection H as <-; cbn [source target fl_filepath fl_position];
      (split; [reflexivity|]; split; [exact Hsub|]; eexists; exists tl; split; [exact E|reflexivity]).
Qed.

Lemma search_document_found (symbol : string) (d : TextDocument) (loc : option (Position * Position))
    (si : SymbolInfo) :
  search_document defs tofp symbol d loc = Some si -> found_in defs tofp symbol d si.
Proof.
  unfold search_document. intros H.
  destruct loc as [l|].
  - destruct (findSymbolInContent defs tofp symbol d (getTextRange d (hint_window d l))
                (offsetAt d (start (hint_window d l)))) as [si'|] eqn:E.
    + injection H as <-. unfold findSymbolInContent, getTextRange in E.
      apply (first_definition_found symbol d (offsetAt d (start (hint_window d l)))
               (offsetAt d (end_ (hint_window d l)) - offsetAt d (start (hint_window d l))));
        [|exact E].
      pose proof (offsetAt_le d (start (hint_window d l))).
      pose proof (offsetAt_le d (end_ (hint_window d l))). lia.
    + unfold findSymbolInContent, getText in H.
      rewrite <- (substring_all (text d)) in H at 1.
      exact (first_definition_found symbol d 0 _ (le_n _) si H).
  - unfold findSymbolInContent, getText in H.
    rewrite <- (substring_all (text d)) in H at 1.
    exact (first_definition_found symbol d 0 _ (le_n _) si H).
Qed.

Lemma lookup_hints_found (symbol : string) (hints : list LookupSymbolHint) (si : SymbolInfo) :
  lookup_hints resolve open_ defs tofp symbol hints = Ok (Some si) ->
  exists hint fp u d, In hint hints /\ hint_filepath hint = Some fp /\ resolve fp = Some u /\
    open_ u = Ok d /\ found_in defs tofp symbol d si.
Proof.
  induction hints as [|hint rest IH]; cbn; [discriminate|]. intros H.
  destruct (hint_filepath hint) as [fp|] eqn:Ef;
    [|destruct (IH H) as (h & fp' & u & d & ?); exists h, fp', u, d; intuition].
  destruct (resolve fp) as [u|] eqn:Er;
    [|destruct (IH H) as (h & fp' & u & d & ?); exists h, fp', u, d; intuition].
  destruct (open_ u) as [d|e] eqn:Eo;
    [|destruct (IH H) as (h & fp' & u' & d & ?); exists h, fp', u', d; intuition].
  destruct (search_document defs tofp symbol d (hint_location hint)) as [si'|] eqn:Es.
  - injection H as <-. exists hint, fp, u, d.
    split; [left; reflexivity|]. split; [exact Ef|]. split; [exact Er|]. split; [exact Eo|].
    exact (search_document_found _ _ _ _ Es).
  - destruct (IH H) as (h & fp' & u' & d' & ?). exists h, fp', u', d'. intuition.
Qed.

Lemma lookup_hints_app (symbol : string) (h1 h2 : list LookupSymbolHint) :
  lookup_hints resolve open_ defs tofp symbol (h1 ++ h2) =
  match lookup_hints resolve open_ defs tofp symbol h1 with
  | Ok (Some si) => Ok (Some si)
  | _ => lookup_hints resolve open_ defs tofp symbol h2
  end.
Proof.
  induction h1 as [|hint rest IH]; cbn [app lookup_hints]; [reflexivity|].
  destruct (hint_filepath hint) as [fp|]; [|exact IH].
  destruct (resolve fp) as [u|]; [|exact IH].
  destruct (open_ u) as [d|e]; [|exact IH].
  destruct (search_document defs tofp symbol d (hint_location hint)); [reflexivity|exact IH].
Qed.

End Collaborators.

End LookupExtraFacts.

Module LookupExtraClaims.
Import Panel Lookup LookupResult LookupExtraFacts.

(** A symbol [lookupSymbol] finds comes from one of the hints: the hint
    names a file that resolves to a URI, the document opened there is [d],
    the returned source is in [d] at a position where the text of [d]
    reads the symbol, and the returned target is the first definition the
    definition provider gives at that position. *)
Theorem lookupSymbol_result_found_in_hinted_document :
  forall (chatPanelFilepathToLocalUri : Filepath -> option string)
         (openTextDocument : string -> Result TextDocument)
         (executeDefinitionProvider : string -> Position -> list DefLocation)
         (localUriToChatPanelFilepath : string -> Filepath)
         (symbol : string) (hints : option (list LookupSymbolHint)) (si : SymbolInfo),
    lookupSymbol chatPanelFilepathToLocalUri openTextDocument executeDefinitionProvider
      localUriToChatPanelFilepath symbol hints = Ok (Some si) ->
    is_identifier symbol = true /\
    exists hint fp u d,
      In hint (match hints with Some hs => hs | None => [] end) /\
      hint_filepath hint = Some fp /\ chatPanelFilepathToLocalUri fp = Some u /\
      openTextDocument u = Ok d /\
      found_in executeDefinitionProvider localUriToChatPanelFilepath symbol d si.
Proof.
  intros resolve open_ defs tofp symbol hints si H. unfold lookupSymbol in H.
  destruct (is_identifier symbol); [|discriminate]. split; [reflexivity|].
  exact (lookup_hints_found resolve open_ defs tofp symbol _ si H).
Qed.

(** The hints are tried in order: looking a symbol up with the hints
    [h1 ++ h2] gives the result of [h1] when [h1] finds it, and the result
    of [h2] otherwise. *)
Theorem lookupSymbol_hints_in_order :
  forall (chatPanelFilepathToLocalUri : Filepath -> option string)
         (openTextDocument : string -> Result TextDocument)
         (executeDefinitionProvider : string -> Position -> list DefLocation)
         (localUriToChatPanelFilepath : string -> Filepath)
         (symbol : string) (h1 h2 : list LookupSymbolHint),
    let lookup := lookupSymbol chatPanelFilepathToLocalUri openTextDocument
                    executeDefinitionProvider localUriToChatPanelFilepath symbol in
    lookup (Some (h1 ++ h2)) =
    match lookup (Some h1) with
    | Ok (Some si) => Ok (Some si)
    | _ => lookup (Some h2)
    end.
Proof.
  intros resolve open_ defs tofp symbol h1 h2 lookup. unfold lookup, lookupSymbol.
  destruct (is_identifier symbol); cbn [negb]; [|reflexivity].
  apply lookup_hints_app.
Qed.

(** Example: [x] declared at (0, 4) of a.c. *)
Lemma lookupSymbol_result_found_in_hinted_document_witness :
  exists d, Samples.sample_open "file:///a.c" = Ok d /\
    found_in Samples.sample_defs FilepathUri "x" d
      (mkSymbolInfo (mkFileLocation (FilepathUri "file:///a.c") (0, 4))
         (mkFileRange (FilepathUri "file:///a.c") (mkRangeRaw (0, 4) (0, 5)))).
Proof.
  destruct (lookupSymbol_result_found_in_hinted_document Samples.sample_resolve Samples.sample_open
              Samples.sample_defs FilepathUri "x" (Some [mkHint (Some Samples.sample_path) None])
              (mkSymbolInfo (mkFileLocation (FilepathUri "file:///a.c") (0, 4))
                 (mkFileRange (FilepathUri "file:///a.c") (mkRangeRaw (0, 4) (0, 5)))))
    as [_ (h & fp & u & d & Hh & Hf & Hr & Ho & Hd)].
  - vm_compute. reflexivity.
  - exists d. destruct Hh as [<-|[]]. cbn in Hf. injection Hf as <-.
    cbn in Hr. injection Hr as <-. split; assumption.
Defined.

End LookupExtraClaims.
